(** * Hermes: the relay service of the Zephyr custody contract

    A shallow embedding of [microservice/index.js] and of the properties its
    specification states about it.

    Conventions of the embedding.

    - JavaScript values that reach the handlers from a parsed JSON body are
      values of [JsValue]; a number is kept through the three tests the
      handlers make of one (truthiness, [isNaN], [<= 0]), that is, through
      its sign class [JsNumber].
    - The service state is the record [World]: the two JSON files, the
      in-memory [divineTokensCache], and the [trace] of every interaction
      with the outside (chain calls, backend POSTs, file writes), oldest
      first. The cache is an object used as a map from token addresses to
      booleans, a [gmap]; the files are written by the service only, so a
      file that parses holds a value of its type.
    - What the outside answers is the record [Env]; an answer is a function
      of the trace so far, so that two calls made at different moments may
      be answered differently.
    - A computation is a function [World -> Outcome A * World]: it returns
      or throws, and leaves a world behind. [try ... catch] is [try_catch].
    - Every call that a handler awaits settles: the outside answers it with
      a value or an exception. A call that never settles is not part of
      this model; [tx.wait()] is awaited without a timeout, and a request
      whose transaction is never mined is left without a response.
    - A route handler is run alone, from the request to the response. The
      callbacks of the [Offering] events are not: [Listener] starts them in
      arrival order and resumes each one when its [await] settles, in any
      order.
    - A request is one that [express.json()] has parsed and that the rate
      limiter has let through: the model starts at the route's own
      middleware chain.
    - [Variant2] holds what differs in the second copy of [index.js] that
      the repository keeps. *)

From Stdlib Require Import ZArith String Ascii List Bool.
From stdpp Require Import base gmap strings list pretty.

Open Scope string_scope.
Open Scope Z_scope.

(** ** JavaScript values *)

(** The sign class of a JavaScript number: [Negative] and [Positive] include
    the infinities, [Zero] is [+0] or [-0]. *)
Inductive JsNumber : Type :=
  | NaN
  | Negative
  | Zero
  | Positive.

(** [JObject n] is an object or an array whose conversion to a number gives
    [n]. A string is a sequence of code units below 256. *)
Inductive JsValue : Type :=
  | JUndefined
  | JNull
  | JBool (b : bool)
  | JNumber (n : JsNumber)
  | JString (s : string)
  | JObject (n : JsNumber).

#[global] Instance JsNumber_eq_dec : EqDecision JsNumber.
Proof. solve_decision. Defined.

#[global] Instance JsValue_eq_dec : EqDecision JsValue.
Proof. solve_decision. Defined.

(** [isNaN(n)]. *)
Definition isNaN (n : JsNumber) : bool :=
  match n with NaN => true | _ => false end.

(** [n <= 0]: every comparison with [NaN] is false. *)
Definition le_zero (n : JsNumber) : bool :=
  match n with Negative | Zero => true | NaN | Positive => false end.


(** ToBoolean: what [!v] negates. *)
Definition truthy (v : JsValue) : bool :=
  match v with
  | JUndefined | JNull => false
  | JBool b => b
  | JNumber n => match n with NaN | Zero => false | _ => true end
  | JString s => negb (String.eqb s "")
  | JObject _ => true
  end.

(** *** StringToNumber

    The grammar of [StringNumericLiteral]: white space around an optional
    [StrNumericLiteral], which is a signed decimal literal (or [Infinity])
    or an unsigned binary, octal or hexadecimal integer. *)

Definition isWhiteSpace (c : ascii) : bool :=
  let n := nat_of_ascii c in
  ((9 <=? n) && (n <=? 13) || (n =? 32) || (n =? 160))%nat.

Definition isDecimalDigit (c : ascii) : bool :=
  let n := nat_of_ascii c in ((48 <=? n) && (n <=? 57))%nat.

(** The value of a digit in a base up to 16, when it is one. *)
Definition digitValue (c : ascii) : option Z :=
  let n := Z.of_nat (nat_of_ascii c) in
  if (48 <=? n) && (n <=? 57) then Some (n - 48)
  else if (97 <=? n) && (n <=? 102) then Some (n - 87)
  else if (65 <=? n) && (n <=? 70) then Some (n - 55)
  else None.

(** The number a non-empty run of digits writes in [base]. *)
Fixpoint digitsFrom (base acc : Z) (l : list ascii) : option Z :=
  match l with
  | [] => Some acc
  | c :: l' =>
      match digitValue c with
      | Some d => if d <? base then digitsFrom base (base * acc + d) l' else None
      | None => None
      end
  end.

Definition digits (base : Z) (l : list ascii) : option Z :=
  match l with
  | [] => None
  | _ => digitsFrom base 0 l
  end.

(** The longest prefix of [l] that satisfies [p], and the rest. *)
Fixpoint span (p : ascii -> bool) (l : list ascii) : list ascii * list ascii :=
  match l with
  | [] => ([], [])
  | c :: l' =>
      if p c then let '(a, b) := span p l' in (c :: a, b) else ([], l)
  end.

Definition trimStart (l : list ascii) : list ascii := snd (span isWhiteSpace l).

Definition trim (l : list ascii) : list ascii :=
  rev (trimStart (rev (trimStart l))).

(** [ExponentPart_opt] at the end of a decimal literal whose digits are
    [ds], [f] of them after the point: the mantissa and the power of ten. *)
Definition exponentPart (ds : list ascii) (f : Z) (l : list ascii) : option (Z * Z) :=
  match digits 10 ds with
  | None => None
  | Some m =>
      match l with
      | [] => Some (m, - f)
      | c :: l' =>
          if (Ascii.eqb c "e" || Ascii.eqb c "E")%bool then
            let '(sgn, l'') :=
              match l' with
              | s :: r =>
                  if Ascii.eqb s "+" then (1, r)
                  else if Ascii.eqb s "-" then (-1, r)
                  else (1, l')
              | [] => (1, l')
              end in
            match digits 10 l'' with
            | Some e => Some (m, sgn * e - f)
            | None => None
            end
          else None
      end
  end.

(** [StrUnsignedDecimalLiteral], [Infinity] apart: [m * 10 ^ e]. *)
Definition unsignedDecimal (l : list ascii) : option (Z * Z) :=
  let '(ip, r) := span isDecimalDigit l in
  match r with
  | c :: r' =>
      if Ascii.eqb c "." then
        let '(fp, r'') := span isDecimalDigit r' in
        match (ip ++ fp)%list with
        | [] => None
        | ds => exponentPart ds (Z.of_nat (length fp)) r''
        end
      else exponentPart ip 0 r
  | [] => exponentPart ip 0 r
  end.

(** The nearest double of [m * 10 ^ e] is zero when the value is at most
    half the least positive double, [2 ^ -1074]. *)
Definition roundsToZero (m e : Z) : bool :=
  (m =? 0) || ((e <? 0) && (m * 2 ^ 1075 <=? 10 ^ (- e))).

Definition unsignedSign (l : list ascii) : JsNumber :=
  if decide (l = list_ascii_of_string "Infinity") then Positive
  else
    match unsignedDecimal l with
    | Some (m, e) => if roundsToZero m e then Zero else Positive
    | None => NaN
    end.

Definition negate (n : JsNumber) : JsNumber :=
  match n with Positive => Negative | Negative => Positive | _ => n end.

Definition nonDecimal (base : Z) (l : list ascii) : JsNumber :=
  match digits base l with
  | Some n => if n =? 0 then Zero else Positive
  | None => NaN
  end.

Definition strNumericLiteral (l : list ascii) : JsNumber :=
  match l with
  | [] => Zero
  | c :: l' =>
      if Ascii.eqb c "+" then unsignedSign l'
      else if Ascii.eqb c "-" then negate (unsignedSign l')
      else
        match l' with
        | x :: l'' =>
            if Ascii.eqb c "0" && (Ascii.eqb x "x" || Ascii.eqb x "X") then nonDecimal 16 l''
            else if Ascii.eqb c "0" && (Ascii.eqb x "o" || Ascii.eqb x "O") then nonDecimal 8 l''
            else if Ascii.eqb c "0" && (Ascii.eqb x "b" || Ascii.eqb x "B") then nonDecimal 2 l''
            else unsignedSign l
        | [] => unsignedSign l
        end
  end.

Definition StringToNumber (s : string) : JsNumber :=
  strNumericLiteral (trim (list_ascii_of_string s)).

(** [Number(v)]. *)
Definition Number (v : JsValue) : JsNumber :=
  match v with
  | JUndefined => NaN
  | JNull => Zero
  | JBool b => if b then Positive else Zero
  | JNumber n => n
  | JString s => StringToNumber s
  | JObject n => n
  end.


(** ** Data of the service *)

(** What a call returns: a value, or an exception with its message. *)
Inductive Outcome (A : Type) : Type :=
  | Returned (a : A)
  | Thrown (message : string).

Arguments Returned {A} a.
Arguments Thrown {A} message.

(** A record of [trdb.json]: the object [txData] of the Offering handler. *)
Record TxData : Type := mkTxData {
  timestamp : Z;
  from : string;
  tokenAddress : string;
  amount : string;
  formattedAmount : string;
  txHash : string
}.

(** The arguments of an [Offering] event of the contract. *)
Record Offering : Type := mkOffering {
  mortal : string;
  offeredToken : string;
  offeredAmount : Z;
  offeringHash : string
}.

(** The body posted to the backend at [/token-received]. *)
Record Notification : Type := mkNotification {
  sender : string;
  notifiedToken : string;
  notifiedAmount : string;
  notifiedFormattedAmount : string;
  notifiedHash : string;
  notifiedAt : string
}.

(** What [tx.wait()] resolves to, as far as the handlers read it. *)
Record Receipt : Type := mkReceipt {
  hash : string;
  blockNumber : Z
}.

(** A call on the chain: the two views and the three transactions. *)
Inductive ChainCall : Type :=
  | isTokenDivineCall (token : string)
  | decimalsCall (token : string)
  | blessWithTokensCall (token recipient : string) (amountInWei : Z) (reference : JsValue)
  | blessTokenCall (token : string)
  | unBlessTokenCall (token : string).

(** An interaction with the outside. *)
Inductive Effect : Type :=
  | Chain (c : ChainCall)
  | Post (n : Notification)
  | WriteFile (path : string).

(** A JSON file: not there, there but not read or parsed, or holding a
    value. *)
Inductive File (A : Type) : Type :=
  | Absent
  | Unreadable
  | Holds (content : A).

Arguments Absent {A}.
Arguments Unreadable {A}.
Arguments Holds {A} content.

Record World : Type := mkWorld {
  trdb : File (list TxData);
  divineTokensCacheFile : File (gmap string bool);
  divineTokensCache : gmap string bool;
  trace : list Effect
}.

(** The outside: configuration, the [ethers] helpers, and the answers of the
    chain, the backend, the file system and the clock after a given trace.
    [zephyr_send] is a transaction of the contract from its submission to
    the receipt of [tx.wait()]: either step may throw. *)
Record Env : Type := mkEnv {
  env_API_KEY : option string;
  isAddress : string -> bool;
  formatUnits : Z -> Z -> Outcome string;
  parseUnits : JsValue -> Z -> Outcome Z;
  zephyr_isTokenDivine : list Effect -> string -> Outcome bool;
  token_decimals : list Effect -> string -> Outcome Z;
  zephyr_send : list Effect -> ChainCall -> Outcome Receipt;
  axios_post : list Effect -> Notification -> Outcome unit;
  fs_writeFileSync : list Effect -> string -> Outcome unit;
  Date_now : list Effect -> Z;
  Date_toISOString : list Effect -> string
}.

Definition TRDB_PATH : string := "./trdb.json".
Definition DIVINE_TOKENS_CACHE_PATH : string := "./divineTokensCache.json".

(** The chain calls of a trace, in order. *)
Definition chainCalls (tr : list Effect) : list ChainCall :=
  omap (fun e => match e with Chain c => Some c | _ => None end) tr.

(** The notifications of a trace, in order. *)
Definition posts (tr : list Effect) : list Notification :=
  omap (fun e => match e with Post n => Some n | _ => None end) tr.

Definition with_trace (tr : list Effect) (w : World) : World :=
  mkWorld (trdb w) (divineTokensCacheFile w) (divineTokensCache w) tr.

Definition with_trdb (f : File (list TxData)) (w : World) : World :=
  mkWorld f (divineTokensCacheFile w) (divineTokensCache w) (trace w).

Definition with_cacheFile (f : File (gmap string bool)) (w : World) : World :=
  mkWorld (trdb w) f (divineTokensCache w) (trace w).

Definition with_cache (c : gmap string bool) (w : World) : World :=
  mkWorld (trdb w) (divineTokensCacheFile w) c (trace w).

(** ** Computations *)

Definition Js (A : Type) : Type := World -> Outcome A * World.

Definition ret {A : Type} (a : A) : Js A := fun w => (Returned a, w).

Definition bind {A B : Type} (m : Js A) (k : A -> Js B) : Js B :=
  fun w =>
    match m w with
    | (Returned a, w') => k a w'
    | (Thrown msg, w') => (Thrown msg, w')
    end.

Notation "x <- m ;; k" := (bind m (fun x => k))
  (at level 100, m at next level, right associativity).

(** [try { m } catch (error) { h error.message }]. *)
Definition try_catch {A : Type} (m : Js A) (h : string -> Js A) : Js A :=
  fun w =>
    match m w with
    | (Thrown msg, w') => h msg w'
    | r => r
    end.

(** A value or an exception that does not touch the world. *)
Definition lift {A : Type} (o : Outcome A) : Js A := fun w => (o, w).

(** An interaction: the outside answers from the trace so far, and the
    interaction joins the trace. *)
Definition perform {A : Type} (e : Effect) (answer : list Effect -> Outcome A) : Js A :=
  fun w => (answer (trace w), with_trace (trace w ++ [e]) w).

(** Reading the clock leaves no trace. *)
Definition clock {A : Type} (read : list Effect -> A) : Js A :=
  fun w => (Returned (read (trace w)), w).

(** ** HTTP *)

(** A request, as the routes read it: the [x-api-key] header and the four
    fields of [req.body], [JUndefined] when the body has no such field. *)
Record Request : Type := mkRequest {
  x_api_key : option string;
  body_tokenAddress : JsValue;
  body_recipient : JsValue;
  body_amount : JsValue;
  body_reference : JsValue
}.

(** The objects passed to [res.json]. *)
Inductive Body : Type :=
  | ErrorBody (error : string)
  | FailureBody (error details : string)
  | BlessingBody (token recipient : string) (amount : JsValue) (txHash : string) (blockNumber : Z)
  | TokenBody (token : string) (txHash : string) (blockNumber : Z)
  | DivineTokensBody (divineTokens : list string)
  | HealthBody (status : string).

Record Response : Type := mkResponse {
  status : Z;
  json : Body
}.

(** ** The service: [microservice/index.js] *)

Section Hermes.

Context (env : Env).

(** [loadTransactionDB]: the empty list when the file is absent or does not
    parse. *)
Definition loadTransactionDB : Js (list TxData) :=
  fun w =>
    match trdb w with
    | Holds db => (Returned db, w)
    | Absent | Unreadable => (Returned [], w)
    end.

(** [saveTransactionDB]: the whole file is rewritten; a refused write throws
    and leaves the file as it was. *)
Definition saveTransactionDB (data : list TxData) : Js unit :=
  _ <- perform (WriteFile TRDB_PATH) (fun tr => fs_writeFileSync env tr TRDB_PATH) ;;
  fun w => (Returned tt, with_trdb (Holds data) w).

(** [transactionExists]: [db.some(tx => tx.txHash === txHash)]. *)
Definition transactionExists (h : string) (db : list TxData) : bool :=
  existsb (fun tx => String.eqb (txHash tx) h) db.

(** [appendTransaction]. *)
Definition appendTransaction (txData : TxData) : Js unit :=
  db <- loadTransactionDB ;;
  if negb (transactionExists (txHash txData) db)
  then saveTransactionDB (db ++ [txData])%list
  else ret tt.

(** [process.env.API_KEY || 'default-secure-api-key']: the empty string is
    falsy too. *)
Definition API_KEY : string :=
  match env_API_KEY env with
  | Some k => if String.eqb k "" then "default-secure-api-key" else k
  | None => "default-secure-api-key"
  end.

Definition unauthorized : Response :=
  mkResponse 401 (ErrorBody "Unauthorized: Invalid API key").

(** [validateApiKey]: [next] is the rest of the route. *)
Definition validateApiKey (req : Request) (next : Js Response) : Js Response :=
  match x_api_key req with
  | None => ret unauthorized
  | Some providedApiKey =>
      if String.eqb providedApiKey "" || negb (String.eqb providedApiKey API_KEY)
      then ret unauthorized
      else next
  end.

(** [loadDivineTokensCache], which initialises [divineTokensCache] when the
    process starts. *)
Definition loadDivineTokensCache (w : World) : gmap string bool :=
  match divineTokensCacheFile w with
  | Holds c => c
  | Absent | Unreadable => ∅
  end.

Definition startup (w : World) : World := with_cache (loadDivineTokensCache w) w.

(** [saveDivineTokensCache]: writes the cache as it is now; a refused write
    is logged, not thrown. *)
Definition saveDivineTokensCache : Js unit :=
  try_catch
    (_ <- perform (WriteFile DIVINE_TOKENS_CACHE_PATH)
            (fun tr => fs_writeFileSync env tr DIVINE_TOKENS_CACHE_PATH) ;;
     fun w => (Returned tt, with_cacheFile (Holds (divineTokensCache w)) w))
    (fun _ => ret tt).

(** [divineTokensCache[tokenAddress] = value]. *)
Definition cache_set (token : string) (value : bool) : Js unit :=
  fun w => (Returned tt, with_cache (<[token := value]> (divineTokensCache w)) w).

(** [delete divineTokensCache[tokenAddress]]. *)
Definition cache_delete (token : string) : Js unit :=
  fun w => (Returned tt, with_cache (delete token (divineTokensCache w)) w).

(** [isTokenDivine]. *)
Definition isTokenDivine (token : string) : Js bool :=
  fun w =>
    match divineTokensCache w !! token with
    | Some cached => (Returned cached, w)
    | None =>
        try_catch
          (isDivine <- perform (Chain (isTokenDivineCall token))
                         (fun tr => zephyr_isTokenDivine env tr token) ;;
           _ <- cache_set token isDivine ;;
           _ <- saveDivineTokensCache ;;
           ret isDivine)
          (fun _ => ret false) w
    end.

(** [getTokenDecimals]: 18 when the token does not answer. *)
Definition getTokenDecimals (token : string) : Js Z :=
  try_catch
    (perform (Chain (decimalsCall token)) (fun tr => token_decimals env tr token))
    (fun _ => ret 18).

(** The callback that [listenForOfferings] registers on ['Offering']. *)
Definition onOffering (ev : Offering) : Js unit :=
  try_catch
    (decimals <- getTokenDecimals (offeredToken ev) ;;
     formatted <- lift (formatUnits env (offeredAmount ev) decimals) ;;
     now <- clock (Date_now env) ;;
     let txData :=
       mkTxData now (mortal ev) (offeredToken ev) (pretty (offeredAmount ev))
                formatted (offeringHash ev) in
     _ <- appendTransaction txData ;;
     iso <- clock (Date_toISOString env) ;;
     let n :=
       mkNotification (mortal ev) (offeredToken ev) (pretty (offeredAmount ev))
                      formatted (offeringHash ev) iso in
     _ <- perform (Post n) (fun tr => axios_post env tr n) ;;
     ret tt)
    (fun _ => ret tt).

(** *** The callbacks of several events

    The callback is an [async] function, and nothing orders the callbacks of
    two events. A callback is called when its event is emitted and runs up
    to [await getTokenDecimals(...)]: it has written to the console and sent
    the [decimals()] call. It resumes when that call settles, whatever
    callbacks have been called or have resumed meanwhile. Once resumed it
    awaits nothing until it has sent the POST, and what follows
    [await axios.post(...)] writes to the console only. The [decimals()]
    call joins the trace when it settles and the POST when it is sent, so
    in the world a callback that resumes is [onOffering], and a callback
    that waits has changed nothing yet. *)

(** The listener: the world, and the events whose callback waits for the
    decimals, oldest first. *)
Record Listener : Type := mkListener {
  world : World;
  waiting : list Offering
}.

(** What happens next: the contract emits an event, or the [decimals()] call
    of the [i]-th waiting callback settles. *)
Inductive Tick : Type :=
  | Emitted (ev : Offering)
  | Settled (i : nat).

Definition tick (l : Listener) (t : Tick) : Listener :=
  match t with
  | Emitted ev => mkListener (world l) (waiting l ++ [ev])%list
  | Settled i =>
      match waiting l !! i with
      | Some ev => mkListener (snd (onOffering ev (world l))) (delete i (waiting l))
      | None => l
      end
  end.

(** The listener after a schedule of events and settlements. *)
Definition listen (ts : list Tick) (l : Listener) : Listener := foldl tick l ts.

(** The callbacks of [evs] resume one after the other, in this order. *)
Fixpoint resumeAll (evs : list Offering) (w : World) : World :=
  match evs with
  | [] => w
  | ev :: evs' => resumeAll evs' (snd (onOffering ev w))
  end.

(** [ethers.isAddress(v)]: only a string can be an address. *)
Definition asAddress (v : JsValue) : option string :=
  match v with
  | JString s => if isAddress env s then Some s else None
  | _ => None
  end.

(** [!amount || isNaN(Number(amount)) || Number(amount) <= 0]. *)
Definition invalidAmount (amount : JsValue) : bool :=
  negb (truthy amount) || isNaN (Number amount) || le_zero (Number amount).

Definition badRequest (error : string) : Js Response :=
  ret (mkResponse 400 (ErrorBody error)).

Definition serverError (error details : string) : Js Response :=
  ret (mkResponse 500 (FailureBody error details)).

(** The handler of [POST /bless-with-tokens]. *)
Definition blessWithTokens (req : Request) : Js Response :=
  try_catch
    (match asAddress (body_tokenAddress req) with
     | None => badRequest "Invalid token address"
     | Some token =>
         match asAddress (body_recipient req) with
         | None => badRequest "Invalid recipient address"
         | Some recipient =>
             if invalidAmount (body_amount req) then badRequest "Invalid amount"
             else
               isDivine <- isTokenDivine token ;;
               if negb isDivine then badRequest "Token not blessed by Olympus"
               else
                 decimals <- getTokenDecimals token ;;
                 amountInWei <- lift (parseUnits env (body_amount req) decimals) ;;
                 let call :=
                   blessWithTokensCall token recipient amountInWei (body_reference req) in
                 receipt <- perform (Chain call) (fun tr => zephyr_send env tr call) ;;
                 ret (mkResponse 200
                        (BlessingBody token recipient (body_amount req)
                                      (hash receipt) (blockNumber receipt)))
         end
     end)
    (serverError "Failed to bestow blessing").

(** The handler of [POST /bless-token]. *)
Definition blessToken (req : Request) : Js Response :=
  try_catch
    (match asAddress (body_tokenAddress req) with
     | None => badRequest "Invalid token address"
     | Some token =>
         isDivine <- isTokenDivine token ;;
         if isDivine then badRequest "Token already blessed"
         else
           receipt <- perform (Chain (blessTokenCall token))
                        (fun tr => zephyr_send env tr (blessTokenCall token)) ;;
           _ <- cache_set token true ;;
           _ <- saveDivineTokensCache ;;
           ret (mkResponse 200 (TokenBody token (hash receipt) (blockNumber receipt)))
     end)
    (serverError "Failed to bless token").

(** The handler of [POST /unbless-token]. *)
Definition unblessToken (req : Request) : Js Response :=
  try_catch
    (match asAddress (body_tokenAddress req) with
     | None => badRequest "Invalid token address"
     | Some token =>
         isDivine <- isTokenDivine token ;;
         if negb isDivine then badRequest "Token not blessed"
         else
           receipt <- perform (Chain (unBlessTokenCall token))
                        (fun tr => zephyr_send env tr (unBlessTokenCall token)) ;;
           _ <- cache_delete token ;;
           _ <- saveDivineTokensCache ;;
           ret (mkResponse 200 (TokenBody token (hash receipt) (blockNumber receipt)))
     end)
    (serverError "Failed to unbless token").

(** [Object.keys(divineTokensCache).filter(token => divineTokensCache[token])]. *)
Definition divineTokensOf (cache : gmap string bool) : list string :=
  filter (fun token => cache !! token = Some true) (map fst (map_to_list cache)).

(** The handler of [GET /divine-tokens]. *)
Definition divineTokens (req : Request) : Js Response :=
  try_catch
    (fun w =>
       (Returned (mkResponse 200 (DivineTokensBody (divineTokensOf (divineTokensCache w)))), w))
    (serverError "Failed to get divine tokens").

(** The handler of [GET /health]. *)
Definition health (req : Request) : Js Response :=
  ret (mkResponse 200 (HealthBody "Olympus is in harmony")).

(** The routes, as [app.post] and [app.get] register them. *)
Inductive Route : Type :=
  | POST_bless_with_tokens
  | POST_bless_token
  | POST_unbless_token
  | GET_divine_tokens
  | GET_health.

Definition handler (r : Route) : Request -> Js Response :=
  match r with
  | POST_bless_with_tokens => blessWithTokens
  | POST_bless_token => blessToken
  | POST_unbless_token => unblessToken
  | GET_divine_tokens => divineTokens
  | GET_health => health
  end.

Definition authenticated (r : Route) : bool :=
  match r with GET_health => false | _ => true end.

Definition serve (r : Route) (req : Request) : Js Response :=
  match r with
  | POST_bless_with_tokens => validateApiKey req (blessWithTokens req)
  | POST_bless_token => validateApiKey req (blessToken req)
  | POST_unbless_token => validateApiKey req (unblessToken req)
  | GET_divine_tokens => validateApiKey req (divineTokens req)
  | GET_health => health req
  end.

End Hermes.

(** ** The second copy of the service

    The repository holds an earlier copy of [index.js]: no files, a cache
    that starts empty, and a [/bless-token] route that clears the cache entry
    of the token it has blessed. *)

Module Variant2.

Section Hermes.

Context (env : Env).

(** [isTokenDivine] of the second copy: the answer of the chain is cached,
    not saved. *)
Definition isTokenDivine (token : string) : Js bool :=
  fun w =>
    match divineTokensCache w !! token with
    | Some cached => (Returned cached, w)
    | None =>
        try_catch
          (isDivine <- perform (Chain (isTokenDivineCall token))
                         (fun tr => zephyr_isTokenDivine env tr token) ;;
           _ <- cache_set token isDivine ;;
           ret isDivine)
          (fun _ => ret false) w
    end.

(** The handler of [POST /bless-token] of the second copy. *)
Definition blessToken (req : Request) : Js Response :=
  try_catch
    (match asAddress env (body_tokenAddress req) with
     | None => badRequest "Invalid token address"
     | Some token =>
         isDivine <- isTokenDivine token ;;
         if isDivine then badRequest "Token already blessed"
         else
           receipt <- perform (Chain (blessTokenCall token))
                        (fun tr => zephyr_send env tr (blessTokenCall token)) ;;
           _ <- cache_delete token ;;
           ret (mkResponse 200 (TokenBody token (hash receipt) (blockNumber receipt)))
     end)
    (serverError "Failed to bless token").

(** The callback on ['Offering'] of the second copy: the backend is
    notified, nothing is logged. *)
Definition onOffering (ev : Offering) : Js unit :=
  try_catch
    (decimals <- getTokenDecimals env (offeredToken ev) ;;
     formatted <- lift (formatUnits env (offeredAmount ev) decimals) ;;
     iso <- clock (Date_toISOString env) ;;
     let n :=
       mkNotification (mortal ev) (offeredToken ev) (pretty (offeredAmount ev))
                      formatted (offeringHash ev) iso in
     _ <- perform (Post n) (fun tr => axios_post env tr n) ;;
     ret tt)
    (fun _ => ret tt).

(** The handler of [POST /bless-with-tokens] of the second copy. *)
Definition blessWithTokens (req : Request) : Js Response :=
  try_catch
    (match asAddress env (body_tokenAddress req) with
     | None => badRequest "Invalid token address"
     | Some token =>
         match asAddress env (body_recipient req) with
         | None => badRequest "Invalid recipient address"
         | Some recipient =>
             if invalidAmount (body_amount req) then badRequest "Invalid amount"
             else
               isDivine <- isTokenDivine token ;;
               if negb isDivine then badRequest "Token not blessed by Olympus"
               else
                 decimals <- getTokenDecimals env token ;;
                 amountInWei <- lift (parseUnits env (body_amount req) decimals) ;;
                 let call :=
                   blessWithTokensCall token recipient amountInWei (body_reference req) in
                 receipt <- perform (Chain call) (fun tr => zephyr_send env tr call) ;;
                 ret (mkResponse 200
                        (BlessingBody token recipient (body_amount req)
                                      (hash receipt) (blockNumber receipt)))
         end
     end)
    (serverError "Failed to bestow blessing").

(** The handler of [POST /unbless-token] of the second copy. *)
Definition unblessToken (req : Request) : Js Response :=
  try_catch
    (match asAddress env (body_tokenAddress req) with
     | None => badRequest "Invalid token address"
     | Some token =>
         isDivine <- isTokenDivine token ;;
         if negb isDivine then badRequest "Token not blessed"
         else
           receipt <- perform (Chain (unBlessTokenCall token))
                        (fun tr => zephyr_send env tr (unBlessTokenCall token)) ;;
           _ <- cache_delete token ;;
           ret (mkResponse 200 (TokenBody token (hash receipt) (blockNumber receipt)))
     end)
    (serverError "Failed to unbless token").

End Hermes.

End Variant2.

(** ** Observations *)

(** The Transaction Log: what [loadTransactionDB] reads. *)
Definition transactionLog (w : World) : list TxData :=
  match trdb w with
  | Holds db => db
  | Absent | Unreadable => []
  end.

(** The record that the Offering handler builds for [ev]. *)
Definition recordOf (ev : Offering) (tx : TxData) : Prop :=
  from tx = mortal ev /\
  tokenAddress tx = offeredToken ev /\
  amount tx = pretty (offeredAmount ev) /\
  txHash tx = offeringHash ev.

(** An outside whose file system accepts every write. *)
Definition writesSucceed (env : Env) : Prop :=
  forall tr path, fs_writeFileSync env tr path = Returned tt.

(** An outside whose [formatUnits] formats every amount. *)
Definition formatsSucceed (env : Env) : Prop :=
  forall a d, exists s, formatUnits env a d = Returned s.

(** The decimals that [getTokenDecimals] resolves in [w]. *)
Definition decimalsOf (env : Env) (w : World) (token : string) : Z :=
  match token_decimals env (trace w) token with
  | Returned d => d
  | Thrown _ => 18
  end.

(** The world after [saveDivineTokensCache]. *)
Definition saved (env : Env) (w : World) : World :=
  let w' := with_trace (trace w ++ [WriteFile DIVINE_TOKENS_CACHE_PATH]) w in
  match fs_writeFileSync env (trace w) DIVINE_TOKENS_CACHE_PATH with
  | Returned _ => with_cacheFile (Holds (divineTokensCache w)) w'
  | Thrown _ => w'
  end.

(** The world after a miss that the chain answered with [b]. *)
Definition answered (env : Env) (token : string) (b : bool) (w : World) : World :=
  saved env (with_cache (<[token := b]> (divineTokensCache w))
           (with_trace (trace w ++ [Chain (isTokenDivineCall token)]) w)).

(** What every handler keeps: the transaction file, the cache entries of the
    tokens the request does not name, and an answer with one of the four
    status codes of the service. *)
Definition handled (req : Request) (w : World) (r : Outcome Response * World) : Prop :=
  trdb (snd r) = trdb w /\
  (forall t, body_tokenAddress req <> JString t ->
             divineTokensCache (snd r) !! t = divineTokensCache w !! t) /\
  exists resp,
    fst r = Returned resp /\
    (status resp = 200 \/ status resp = 400 \/ status resp = 401 \/ status resp = 500).

(** The cache file mirrors the cache: a restart would load the cache that
    the process holds. *)
Definition persisted (w : World) : Prop :=
  loadDivineTokensCache w = divineTokensCache w.

(** The paths of the files that a trace has written, or tried to. *)
Definition writes (tr : list Effect) : list string :=
  omap (fun e => match e with WriteFile path => Some path | _ => None end) tr.

(** Nothing of the world but the cache and the trace has changed, and the
    trace has no new write. *)
Definition wroteNothing (w w1 : World) : Prop :=
  trdb w1 = trdb w /\
  divineTokensCacheFile w1 = divineTokensCacheFile w /\
  writes (trace w1) = writes (trace w).

(** The events that a schedule emits, in arrival order. *)
Definition emitted (ts : list Tick) : list Offering :=
  omap (fun t => match t with Emitted ev => Some ev | Settled _ => None end) ts.

(** The events whose callback resumes during a schedule, in the order in
    which they resume; [waits] are the events whose callback waits when the
    schedule starts. *)
Fixpoint resumed (ts : list Tick) (waits : list Offering) : list Offering :=
  match ts with
  | [] => []
  | Emitted ev :: ts' => resumed ts' (waits ++ [ev])
  | Settled i :: ts' =>
      match waits !! i with
      | Some ev => ev :: resumed ts' (delete i waits)
      | None => resumed ts' waits
      end
  end.

(** The schedule in which the callback of each event resumes before the next
    event is emitted. *)
Definition oneByOne (evs : list Offering) : list Tick :=
  flat_map (fun ev => [Emitted ev; Settled 0]) evs.



(** ** A sample outside

    A chain that keeps the allow-list of the contract ([blessToken] sets a
    token, [unBlessToken] clears it), tokens of 18 decimals, a backend and a
    file system that accept everything. The scenarios of the specification
    are run against it. *)

Module Sample.

(** Addresses of the samples: [0x] and forty lower-case hexadecimal digits. *)
Definition hexAddress (s : string) : bool :=
  match list_ascii_of_string s with
  | z :: x :: ds =>
      Ascii.eqb z "0" && Ascii.eqb x "x" && (length ds =? 40)%nat
      && forallb (fun c => isDecimalDigit c
                           || ((97 <=? nat_of_ascii c) && (nat_of_ascii c <=? 102))%nat) ds
  | _ => false
  end.

(** The fraction [r / 10 ^ d] written with [d] digits. *)
Fixpoint fractionDigits (d : nat) (r : Z) : string :=
  match d with
  | O => ""
  | S d' => fractionDigits d' (r / 10) ++ pretty (r mod 10)
  end.

(** Trailing zeros of a fraction dropped, one digit kept. *)
Fixpoint dropZeros (l : list ascii) : list ascii :=
  match l with
  | [] => []
  | c :: l' =>
      match dropZeros l' with
      | [] => if Ascii.eqb c "0" then [] else [c]
      | r => c :: r
      end
  end.

Definition decimalString (a d : Z) : Outcome string :=
  let p := 10 ^ Z.max 0 d in
  let frac :=
    dropZeros (list_ascii_of_string
                 (fractionDigits (Z.to_nat d) (Z.abs a mod p))) in
  Returned ((if a <? 0 then "-" else "") ++ pretty (Z.abs a / p) ++ "."
            ++ match frac with [] => "0" | _ => string_of_list_ascii frac end).

Definition wholeUnits (v : JsValue) (d : Z) : Outcome Z :=
  match v with
  | JString s =>
      match digits 10 (list_ascii_of_string s) with
      | Some n => Returned (n * 10 ^ d)
      | None => Thrown "invalid FixedNumber string value"
      end
  | _ => Thrown "value must be a string"
  end.

(** The allow-list of the contract after the transactions of a trace. *)
Fixpoint divineAfter (tr : list Effect) (token : string) (now : bool) : bool :=
  match tr with
  | [] => now
  | Chain (blessTokenCall t) :: tr' =>
      divineAfter tr' token (if String.eqb t token then true else now)
  | Chain (unBlessTokenCall t) :: tr' =>
      divineAfter tr' token (if String.eqb t token then false else now)
  | _ :: tr' => divineAfter tr' token now
  end.

Definition receiptAfter (tr : list Effect) : Receipt :=
  mkReceipt "0xreceipt" (Z.of_nat (length tr)).

(** An outside with [key] as [process.env.API_KEY] and [view] as the answers
    of the node to [isTokenDivine]. *)
Definition outsideWith (key : option string)
    (view : list Effect -> string -> Outcome bool) : Env :=
  mkEnv key hexAddress decimalString wholeUnits view
        (fun _ _ => Returned 18)
        (fun tr _ => Returned (receiptAfter tr))
        (fun _ _ => Returned tt)
        (fun _ _ => Returned tt)
        (fun tr => 1700000000000 + Z.of_nat (length tr))
        (fun _ => "2023-11-14T22:13:20.000Z").

(** The sample outside: the node answers from the allow-list. *)
Definition outside (key : option string) : Env :=
  outsideWith key (fun tr token => Returned (divineAfter tr token false)).

(** The same outside with a node that answers no view call. *)
Definition unreachable (key : option string) : Env :=
  outsideWith key (fun _ _ => Thrown "could not detect network").

(** Whether a transaction has been sent. *)
Definition sent (tr : list Effect) : bool :=
  existsb (fun e => match e with
                    | Chain (isTokenDivineCall _) | Chain (decimalsCall _) => false
                    | Chain _ => true
                    | _ => false
                    end) tr.

(** The same outside with a node that answers the view calls from the
    allow-list until a transaction has been sent, and none after. *)
Definition dropping (key : option string) : Env :=
  outsideWith key (fun tr token =>
                     if sent tr then Thrown "timeout"
                     else Returned (divineAfter tr token false)).

Definition tokenA : string := "0xaaaaaaaaaaaaaaaaaaaaaaaaaaaaaaaaaaaaaaaa".
Definition mortalB : string := "0xbbbbbbbbbbbbbbbbbbbbbbbbbbbbbbbbbbbbbbbb".

(** A process that has just started with no file on disk. *)
Definition fresh : World := mkWorld Absent Absent ∅ [].

Definition offering1 : Offering :=
  mkOffering mortalB tokenA 1000000000000000000 "0xhash1".

Definition offering2 : Offering :=
  mkOffering mortalB tokenA 250 "0xhash2".

Definition request (key : option string) (token recipient amount : JsValue) : Request :=
  mkRequest key token recipient amount (JString "divine123").

End Sample.

(** ** Sample outsides with a fault *)

Module Faulty.

(** The sample outside with one part replaced: a disk that refuses every
    write, a backend that is down, a node that rejects every transaction,
    tokens whose [decimals()] reverts. *)
Definition readOnlyDisk (key : option string) : Env :=
  let e := Sample.outside key in
  mkEnv key (isAddress e) (formatUnits e) (parseUnits e) (zephyr_isTokenDivine e)
        (token_decimals e) (zephyr_send e) (axios_post e)
        (fun _ _ => Thrown "EACCES: permission denied")
        (Date_now e) (Date_toISOString e).

Definition backendDown (key : option string) : Env :=
  let e := Sample.outside key in
  mkEnv key (isAddress e) (formatUnits e) (parseUnits e) (zephyr_isTokenDivine e)
        (token_decimals e) (zephyr_send e)
        (fun _ _ => Thrown "connect ECONNREFUSED 127.0.0.1:3000")
        (fs_writeFileSync e) (Date_now e) (Date_toISOString e).

Definition nodeRejects (key : option string) : Env :=
  let e := Sample.outside key in
  mkEnv key (isAddress e) (formatUnits e) (parseUnits e) (zephyr_isTokenDivine e)
        (token_decimals e)
        (fun _ _ => Thrown "execution reverted")
        (axios_post e) (fs_writeFileSync e) (Date_now e) (Date_toISOString e).

Definition noDecimals (key : option string) : Env :=
  let e := Sample.outside key in
  mkEnv key (isAddress e) (formatUnits e) (parseUnits e) (zephyr_isTokenDivine e)
        (fun _ _ => Thrown "missing revert data")
        (zephyr_send e) (axios_post e) (fs_writeFileSync e)
        (Date_now e) (Date_toISOString e).

(** A process whose cache holds the sample token as eligible. *)
Definition blessed : World :=
  mkWorld Absent (Holds {[ Sample.tokenA := true ]}) {[ Sample.tokenA := true ]} [].

End Faulty.


(** ** The deployment script: [microservice/deploy-zephyr.js]

    A text is the list of its code units. *)

Module Deploy.

Local Open Scope list_scope.

(** The text that the regular expression [/ZEPHYR_CONTRACT_ADDRESS=.*/]
    starts with. *)
Definition KEY : list ascii := list_ascii_of_string "ZEPHYR_CONTRACT_ADDRESS=".

(** What follows [p] in [l], when [l] starts with [p]. *)
Fixpoint stripPrefix (p l : list ascii) : option (list ascii) :=
  match p, l with
  | [], _ => Some l
  | a :: p', b :: l' => if Ascii.eqb a b then stripPrefix p' l' else None
  | _ :: _, [] => None
  end.

(** The leftmost occurrence of [p] in [l]: what precedes it and what
    follows it. *)
Fixpoint search (p l : list ascii) : option (list ascii * list ascii) :=
  match stripPrefix p l with
  | Some rest => Some ([], rest)
  | None =>
      match l with
      | [] => None
      | c :: l' =>
          match search p l' with
          | Some (before, rest) => Some (c :: before, rest)
          | None => None
          end
      end
  end.

(** The characters that [.] does not match. *)
Definition isLineTerminator (c : ascii) : bool :=
  let n := nat_of_ascii c in ((n =? 10) || (n =? 13))%nat.

Definition inLine (c : ascii) : bool := negb (isLineTerminator c).

(** The replacement text of [String.prototype.replace] for a pattern without
    capture groups: [$$] is a dollar sign, [$&] the match, [$`] what precedes
    it, [$'] what follows it; any other dollar sign stands for itself. *)
Fixpoint expand (matched before after template : list ascii) : list ascii :=
  match template with
  | [] => []
  | c :: t' =>
      if Ascii.eqb c "$" then
        match t' with
        | d :: t'' =>
            if Ascii.eqb d "$" then "$"%char :: expand matched before after t''
            else if Ascii.eqb d "&" then matched ++ expand matched before after t''
            else if Ascii.eqb d "`" then before ++ expand matched before after t''
            else if Ascii.eqb d "'" then after ++ expand matched before after t''
            else c :: expand matched before after t'
        | [] => [c]
        end
      else c :: expand matched before after t'
  end.

(** [envContent.replace(/ZEPHYR_CONTRACT_ADDRESS=.*/,
    `ZEPHYR_CONTRACT_ADDRESS=${address}`)]: the first match, if any, runs
    from the leftmost [ZEPHYR_CONTRACT_ADDRESS=] to the end of its line. *)
Definition updateEnv (envContent address : list ascii) : list ascii :=
  match search KEY envContent with
  | None => envContent
  | Some (before, after) =>
      let '(line, rest) := span inLine after in
      before ++ expand (KEY ++ line) before rest (KEY ++ address) ++ rest
  end.

(** The address that a text records: what follows the leftmost
    [ZEPHYR_CONTRACT_ADDRESS=] on its line. *)
Definition recorded (envContent : list ascii) : option (list ascii) :=
  match search KEY envContent with
  | None => None
  | Some (_, after) => Some (fst (span inLine after))
  end.

(** What a run of the script meets: the two variables of the environment,
    the wallet (its address, unless the key is rejected), the compiled
    contract, the deployment (the address of the contract once deployed) and
    the file [.env]. *)
Record Setup : Type := mkSetup {
  PROVIDER_URL : option string;
  WALLET_PRIVATE_KEY : option string;
  wallet : Outcome string;
  artifact : Outcome unit;
  deployment : string -> Outcome (list ascii);
  dotenv : Outcome (list ascii);
  writable : Outcome unit
}.

(** What a run leaves: the exit code, the address of the contract when one
    was deployed, the text written to [.env] when one was written. *)
Record Run : Type := mkRun {
  exitCode : Z;
  contract : option (list ascii);
  written : option (list ascii)
}.

(** [!value] for a variable of the environment. *)
Definition missing (v : option string) : bool :=
  match v with
  | None => true
  | Some s => String.eqb s ""
  end.

(** [main()], followed by [process.exit(0)] or, on an exception,
    [process.exit(1)]. *)
Definition main (s : Setup) : Run :=
  if missing (PROVIDER_URL s) || missing (WALLET_PRIVATE_KEY s) then mkRun 1 None None
  else
    match wallet s with
    | Thrown _ => mkRun 1 None None
    | Returned hermesAddress =>
        match artifact s with
        | Thrown _ => mkRun 1 None None
        | Returned _ =>
            match deployment s hermesAddress with
            | Thrown _ => mkRun 1 None None
            | Returned address =>
                match dotenv s with
                | Thrown _ => mkRun 1 (Some address) None
                | Returned envContent =>
                    match writable s with
                    | Thrown _ => mkRun 1 (Some address) None
                    | Returned _ =>
                        mkRun 0 (Some address) (Some (updateEnv envContent address))
                    end
                end
            end
        end
    end.

(** [p] occurs in [l]. *)
Definition occurs (p l : list ascii) : Prop :=
  exists before after, l = before ++ p ++ after.

(** What [span] leaves is empty or starts with a character that fails the
    test. *)
Definition stopped (f : ascii -> bool) (rest : list ascii) : Prop :=
  match rest with
  | [] => True
  | c :: _ => f c = false
  end.

(** A sample [.env] of three lines, one without the key, and the address of
    a contract. *)
Definition envHead : list ascii := list_ascii_of_string "SERVICE_PORT=3001" ++ ["010"%char].

Definition envTail : list ascii := "010"%char :: list_ascii_of_string "API_KEY=s3cret".

Definition sampleEnv : list ascii := envHead ++ KEY ++ list_ascii_of_string "0xold" ++ envTail.

Definition bareEnv : list ascii := envHead ++ list_ascii_of_string "API_KEY=s3cret".

Definition sampleAddress : list ascii :=
  list_ascii_of_string "0xCcCCccccCCCCcCCCCCCcCcCccCcCCCcCcccccccC".

Definition sampleSetup (envContent : Outcome (list ascii)) : Setup :=
  mkSetup (Some "https://node.example") (Some "0xkey")
          (Returned "0xaaaaaaaaaaaaaaaaaaaaaaaaaaaaaaaaaaaaaaaa") (Returned tt)
          (fun _ => Returned sampleAddress) envContent (Returned tt).

End Deploy.

(** ** The custody contract: [ZephyrWrapper]

    The state of the contract and its functions, a call being a function of
    the sender and of the state that returns a new state or reverts. What
    the contract inherits is modelled as OpenZeppelin's [Ownable] and
    [Pausable] give it: an owner, set to the deployer, that [onlyOwner]
    checks and that the inherited [transferOwnership] and
    [renounceOwnership] change; a pause flag that [whenNotPaused] checks.
    The answers of the token contract to the calls made to it are part of
    the call. The token is taken not to call back into the contract, so
    that [nonReentrant] never fires; the events of the inherited contracts
    are not kept. *)

Module Zephyr.

Definition address : Type := Z.

Definition MAX_UINT256 : Z := 2 ^ 256 - 1.

Inductive Event : Type :=
  | OfferingEvent (mortal tokenAddress : address) (amount : Z) (txHash : string)
  | BlessingEvent (mortal tokenAddress : address) (amount : Z) (referenceId : string).

Record State : Type := mkState {
  owner : address;
  paused : bool;
  processedOfferings : gmap string bool;
  hermesAddress : address;
  divineTokens : gmap Z bool;
  events : list Event
}.

Inductive Revert : Type :=
  | OwnableUnauthorized
  | OwnableInvalidOwner
  | EnforcedPause
  | ExpectedPause
  | Require (reason : string)
  | Panic
  | CallReverted.

Inductive Result (A : Type) : Type :=
  | Ok (a : A) (s : State)
  | Reverted (r : Revert).

Arguments Ok {A} a s.
Arguments Reverted {A} r.

Definition Tx (A : Type) : Type := State -> Result A.

Definition ret {A : Type} (a : A) : Tx A := fun s => Ok a s.

Definition bind {A B : Type} (m : Tx A) (k : A -> Tx B) : Tx B :=
  fun s =>
    match m s with
    | Ok a s' => k a s'
    | Reverted r => Reverted r
    end.

Local Notation "'let!' x ':=' m 'in' k" := (bind m (fun x => k))
  (at level 10, x name, m at level 100, k at level 200).

Local Notation "m '>>' k" := (bind m (fun _ => k))
  (at level 100, k at level 200, right associativity).

Definition revert {A : Type} (r : Revert) : Tx A := fun _ => Reverted r.

(** [require(condition, reason)]. *)
Definition require (condition : bool) (reason : string) : Tx unit :=
  if condition then ret tt else revert (Require reason).

Definition gets {A : Type} (f : State -> A) : Tx A := fun s => Ok (f s) s.

Definition modify (f : State -> State) : Tx unit := fun s => Ok tt (f s).

(** A value of a mapping to [bool]: [false] where nothing was written. *)
Definition valueAt {K : Type} `{Countable K} (m : gmap K bool) (k : K) : bool :=
  match m !! k with
  | Some b => b
  | None => false
  end.

(** The result of a call to the token contract: [None] when the call
    reverts or returns nothing to decode. *)
Definition external {A : Type} (answer : option A) : Tx A :=
  match answer with
  | Some a => ret a
  | None => revert CallReverted
  end.

(** [a + b] on [uint256], checked. *)
Definition checkedAdd (a b : Z) : Tx Z :=
  if a + b <=? MAX_UINT256 then ret (a + b) else revert Panic.

Definition emit (e : Event) : Tx unit :=
  modify (fun s => mkState (owner s) (paused s) (processedOfferings s) (hermesAddress s)
                           (divineTokens s) (events s ++ [e])).

Definition setOwner (a : address) : Tx unit :=
  modify (fun s => mkState a (paused s) (processedOfferings s) (hermesAddress s)
                           (divineTokens s) (events s)).

Definition setPaused (b : bool) : Tx unit :=
  modify (fun s => mkState (owner s) b (processedOfferings s) (hermesAddress s)
                           (divineTokens s) (events s)).

Definition setProcessed (txHash : string) : Tx unit :=
  modify (fun s => mkState (owner s) (paused s) (<[txHash := true]> (processedOfferings s))
                           (hermesAddress s) (divineTokens s) (events s)).

Definition setHermes (a : address) : Tx unit :=
  modify (fun s => mkState (owner s) (paused s) (processedOfferings s) a
                           (divineTokens s) (events s)).

Definition setDivine (token : address) (b : bool) : Tx unit :=
  modify (fun s => mkState (owner s) (paused s) (processedOfferings s) (hermesAddress s)
                           (<[token := b]> (divineTokens s)) (events s)).

(** The modifiers. *)
Definition onlyOwner (sender : address) : Tx unit :=
  fun s => if sender =? owner s then Ok tt s else Reverted OwnableUnauthorized.

Definition whenNotPaused : Tx unit :=
  fun s => if paused s then Reverted EnforcedPause else Ok tt s.

Definition whenPaused : Tx unit :=
  fun s => if paused s then Ok tt s else Reverted ExpectedPause.

Definition onlyHermes (sender : address) : Tx unit :=
  fun s =>
    if sender =? hermesAddress s then Ok tt s
    else Reverted (Require "Only Hermes may deliver this message").

Definition onlyDivineToken (tokenAddress : address) : Tx unit :=
  fun s =>
    if valueAt (divineTokens s) tokenAddress then Ok tt s
    else Reverted (Require "This token is not blessed by Olympus").

(** The constructor, called by [sender]. *)
Definition deploy (sender hermes : address) : Result unit :=
  if hermes =? 0 then Reverted (Require "Hermes address cannot be zero")
  else Ok tt (mkState sender false ∅ hermes ∅ []).

Definition blessToken (sender tokenAddress : address) : Tx unit :=
  onlyOwner sender >>
  require (negb (tokenAddress =? 0)) "Cannot bless the void" >>
  setDivine tokenAddress true.

Definition unBlessToken (sender tokenAddress : address) : Tx unit :=
  onlyOwner sender >>
  setDivine tokenAddress false.

Definition isTokenDivine (tokenAddress : address) (s : State) : bool :=
  valueAt (divineTokens s) tokenAddress.

Definition appointNewHermes (sender newHermesAddress : address) : Tx unit :=
  onlyOwner sender >>
  require (negb (newHermesAddress =? 0)) "Cannot appoint the void as Hermes" >>
  setHermes newHermesAddress.

Definition sleepOfZeus (sender : address) : Tx unit :=
  onlyOwner sender >> whenNotPaused >> setPaused true.

Definition awakeningOfZeus (sender : address) : Tx unit :=
  onlyOwner sender >> whenPaused >> setPaused false.

Definition isZeusSleeping (s : State) : bool := paused s.

(** What the token answers during [offerTokens]: its balance of the
    contract, the result of [transferFrom], its balance again. *)
Record Deposit : Type := mkDeposit {
  balanceBefore : option Z;
  transferFromResult : option bool;
  balanceAfter : option Z
}.

Definition offerTokens (sender tokenAddress : address) (amount : Z) (txHash : string)
    (token : Deposit) : Tx unit :=
  whenNotPaused >>
  onlyDivineToken tokenAddress >>
  require (0 <? amount) "Offerings must have value" >>
  let! processed := gets (fun s => valueAt (processedOfferings s) txHash) in
  require (negb processed) "This offering has already been recorded" >>
  setProcessed txHash >>
  let! before := external (balanceBefore token) in
  let! success := external (transferFromResult token) in
  require success "The offering was rejected" >>
  let! after := external (balanceAfter token) in
  let! expected := checkedAdd before amount in
  require (expected <=? after) "The offering amount is suspicious" >>
  emit (OfferingEvent sender tokenAddress amount txHash).

(** What the token answers during [blessWithTokens]: its balance of the
    contract and the result of [transfer]. *)
Record Withdrawal : Type := mkWithdrawal {
  balance : option Z;
  transferResult : option bool
}.

Definition blessWithTokens (sender tokenAddress mortal : address) (amount : Z)
    (referenceId : string) (token : Withdrawal) : Tx unit :=
  onlyHermes sender >>
  whenNotPaused >>
  onlyDivineToken tokenAddress >>
  require (negb (mortal =? 0)) "Cannot bless the void" >>
  require (0 <? amount) "Blessings must have value" >>
  let! held := external (balance token) in
  require (amount <=? held) "Not enough divine power for this blessing" >>
  let! success := external (transferResult token) in
  require success "The blessing was interrupted" >>
  emit (BlessingEvent mortal tokenAddress amount referenceId).

(** [recoverLostOfferings]: the boolean that [transfer] returns is not
    looked at. *)
Definition recoverLostOfferings (sender tokenAddress : address) (amount : Z)
    (transferResult : option bool) : Tx unit :=
  onlyOwner sender >>
  let! _ := external transferResult in
  ret tt.

(** The two functions that [Ownable] adds. *)
Definition transferOwnership (sender newOwner : address) : Tx unit :=
  onlyOwner sender >>
  (fun s => if newOwner =? 0 then Reverted OwnableInvalidOwner else Ok tt s) >>
  setOwner newOwner.

Definition renounceOwnership (sender : address) : Tx unit :=
  onlyOwner sender >> setOwner 0.

(** A transaction sent to the contract. *)
Inductive Call : Type :=
  | BlessToken (tokenAddress : address)
  | UnBlessToken (tokenAddress : address)
  | AppointNewHermes (newHermesAddress : address)
  | SleepOfZeus
  | AwakeningOfZeus
  | OfferTokens (tokenAddress : address) (amount : Z) (txHash : string) (token : Deposit)
  | BlessWithTokens (tokenAddress mortal : address) (amount : Z) (referenceId : string)
                    (token : Withdrawal)
  | RecoverLostOfferings (tokenAddress : address) (amount : Z) (transferResult : option bool)
  | TransferOwnership (newOwner : address)
  | RenounceOwnership.

Definition exec (sender : address) (c : Call) : Tx unit :=
  match c with
  | BlessToken t => blessToken sender t
  | UnBlessToken t => unBlessToken sender t
  | AppointNewHermes h => appointNewHermes sender h
  | SleepOfZeus => sleepOfZeus sender
  | AwakeningOfZeus => awakeningOfZeus sender
  | OfferTokens t a h token => offerTokens sender t a h token
  | BlessWithTokens t m a r token => blessWithTokens sender t m a r token
  | RecoverLostOfferings t a r => recoverLostOfferings sender t a r
  | TransferOwnership o => transferOwnership sender o
  | RenounceOwnership => renounceOwnership sender
  end.

(** A transaction that reverts leaves the state as it was. *)
Definition step (s : State) (tx : address * Call) : State :=
  match exec (fst tx) (snd tx) s with
  | Ok _ s' => s'
  | Reverted _ => s
  end.

Definition run (txs : list (address * Call)) (s : State) : State :=
  fold_left step txs s.

(** The identifiers of the [Offering] events of a log, in order. *)
Definition offeringHashes (l : list Event) : list string :=
  omap (fun e => match e with OfferingEvent _ _ _ h => Some h | _ => None end) l.

(** The state that the constructor leaves. *)
Definition deployed (sender hermes : address) : State :=
  mkState sender false ∅ hermes ∅ [].

(** The invariant: the identifiers of the [Offering] events are pairwise
    distinct and are all marked as processed. *)
Definition recordedOnce (s : State) : Prop :=
  NoDup (offeringHashes (events s)) /\
  forall h, h ∈ offeringHashes (events s) -> valueAt (processedOfferings s) h = true.

End Zephyr.

(** ** The conversions and the sample outside, on examples *)

Example Number_examples :
  map StringToNumber
    ["0"; "-5"; "100"; "1.5"; " 42 "; ""; "abc"; "1e-400"; "-0.0"; "0x10";
     ".5"; "5."; "."; "1e"; "-Infinity"; "0x"; "12px"; "+.0e5"; "- 5"; "1e+3";
     "Infinity"; "infinity"; "5e-324"; "2e-324"; "0b101"; "0b12"; "0o17";
     "-0x10"; "1_000"; "1e5.5"]
  = [Zero; Negative; Positive; Positive; Positive; Zero; NaN; Zero; Zero; Positive;
     Positive; Positive; NaN; NaN; Negative; NaN; NaN; Zero; NaN; Positive;
     Positive; NaN; Positive; Zero; Positive; NaN; Positive;
     NaN; NaN; NaN].
Proof. vm_compute. reflexivity. Qed.

(** The amount check on values of each type. Conversion is what decides: a
    JSON [true] converts to 1 and passes the check, as the string
    [Infinity] does. *)
Example invalidAmount_examples :
  map invalidAmount
    [JString "0"; JString "-5"; JString ""; JString "abc"; JString " ";
     JUndefined; JNull; JBool false; JNumber Zero; JNumber Negative; JNumber NaN;
     JString "100"; JString "1.5"; JNumber Positive; JBool true; JString "Infinity"]
  = [true; true; true; true; true;
     true; true; true; true; true; true;
     false; false; false; false; false].
Proof. vm_compute. reflexivity. Qed.

Example Sample_hexAddress :
  Sample.hexAddress Sample.tokenA = true /\ Sample.hexAddress "not-an-address" = false.
Proof. split; reflexivity. Qed.

Example Sample_decimalString :
  Sample.decimalString 1000000000000000000 18 = Returned "1.0" /\
  Sample.decimalString 1500 3 = Returned "1.5" /\
  Sample.decimalString 250 18 = Returned "0.00000000000000025".
Proof. repeat split; vm_compute; reflexivity. Qed.

(** ** Properties of the eligibility cache *)

Section CacheProperties.

Context (env : Env).


Lemma saveDivineTokensCache_saved (w : World) :
  saveDivineTokensCache env w = (Returned tt, saved env w).
Proof.
  unfold saveDivineTokensCache, saved, try_catch, bind, perform, ret.
  destruct (fs_writeFileSync env (trace w) DIVINE_TOKENS_CACHE_PATH) as [[]|msg];
    reflexivity.
Qed.

Lemma saved_cache (w : World) : divineTokensCache (saved env w) = divineTokensCache w.
Proof. unfold saved. destruct (fs_writeFileSync _ _ _); reflexivity. Qed.

Lemma saved_trdb (w : World) : trdb (saved env w) = trdb w.
Proof. unfold saved. destruct (fs_writeFileSync _ _ _); reflexivity. Qed.

Lemma saved_trace (w : World) :
  trace (saved env w) = (trace w ++ [WriteFile DIVINE_TOKENS_CACHE_PATH])%list.
Proof. unfold saved. destruct (fs_writeFileSync _ _ _); reflexivity. Qed.

Lemma chainCalls_app (tr tr' : list Effect) :
  chainCalls (tr ++ tr') = (chainCalls tr ++ chainCalls tr')%list.
Proof. apply omap_app. Qed.

Lemma posts_app (tr tr' : list Effect) :
  posts (tr ++ tr') = (posts tr ++ posts tr')%list.
Proof. apply omap_app. Qed.

(** A cached verdict is returned as it is, and nothing else happens. *)
Lemma isTokenDivine_hit (token : string) (w : World) (b : bool) :
  divineTokensCache w !! token = Some b ->
  isTokenDivine env token w = (Returned b, w).
Proof. intros H. unfold isTokenDivine. rewrite H. reflexivity. Qed.


Lemma isTokenDivine_miss_answered (token : string) (w : World) (b : bool) :
  divineTokensCache w !! token = None ->
  zephyr_isTokenDivine env (trace w) token = Returned b ->
  isTokenDivine env token w = (Returned b, answered env token b w).
Proof.
  intros Hmiss Hview. unfold isTokenDivine. rewrite Hmiss.
  unfold try_catch, bind, perform. rewrite Hview.
  unfold cache_set. rewrite saveDivineTokensCache_saved. reflexivity.
Qed.

Lemma isTokenDivine_miss_thrown (token : string) (w : World) (msg : string) :
  divineTokensCache w !! token = None ->
  zephyr_isTokenDivine env (trace w) token = Thrown msg ->
  isTokenDivine env token w
  = (Returned false, with_trace (trace w ++ [Chain (isTokenDivineCall token)]) w).
Proof.
  intros Hmiss Hview. unfold isTokenDivine. rewrite Hmiss.
  unfold try_catch, bind, perform. rewrite Hview. reflexivity.
Qed.

Lemma answered_cache (token : string) (b : bool) (w : World) :
  divineTokensCache (answered env token b w) = <[token := b]> (divineTokensCache w).
Proof. unfold answered. rewrite saved_cache. reflexivity. Qed.

Lemma answered_trace (token : string) (b : bool) (w : World) :
  trace (answered env token b w)
  = (trace w ++ [Chain (isTokenDivineCall token); WriteFile DIVINE_TOKENS_CACHE_PATH])%list.
Proof.
  unfold answered. rewrite saved_trace. simpl. rewrite <- app_assoc. reflexivity.
Qed.

(** [isTokenDivine] never throws. *)
Lemma isTokenDivine_returns (token : string) (w : World) :
  exists b, fst (isTokenDivine env token w) = Returned b.
Proof.
  destruct (divineTokensCache w !! token) as [b|] eqn:Hc.
  - exists b. rewrite (isTokenDivine_hit _ _ _ Hc). reflexivity.
  - destruct (zephyr_isTokenDivine env (trace w) token) as [b|msg] eqn:Hv.
    + exists b. rewrite (isTokenDivine_miss_answered _ _ _ Hc Hv). reflexivity.
    + exists false. rewrite (isTokenDivine_miss_thrown _ _ _ Hc Hv). reflexivity.
Qed.

(** A miss makes exactly one chain call, the view, whatever it answers. *)
Lemma isTokenDivine_miss_chainCalls (token : string) (w : World) :
  divineTokensCache w !! token = None ->
  chainCalls (trace (snd (isTokenDivine env token w)))
  = (chainCalls (trace w) ++ [isTokenDivineCall token])%list.
Proof.
  intros Hmiss.
  destruct (zephyr_isTokenDivine env (trace w) token) as [b|msg] eqn:Hv.
  - rewrite (isTokenDivine_miss_answered _ _ _ Hmiss Hv). simpl.
    rewrite answered_trace, chainCalls_app. reflexivity.
  - rewrite (isTokenDivine_miss_thrown _ _ _ Hmiss Hv). simpl.
    rewrite chainCalls_app. reflexivity.
Qed.

End CacheProperties.

(** C3. [isTokenDivine] is a read-through cache. For a token that is not in
    the cache, the call makes exactly one chain call, the view
    [isTokenDivine]; when the view answers [b], the call returns [b], the
    cache maps the token to [b], the cache file is rewritten with that cache
    (it holds it unless the file system refuses the write, which
    [saveDivineTokensCache] only logs), and a second call for the token
    returns [b] and changes nothing: no chain call. So does any later call,
    in any world whose cache still maps the token to [b]. *)
Theorem C3_isTokenDivine_read_through (env : Env) (token : string) (w : World) :
  divineTokensCache w !! token = None ->
  let w1 := snd (isTokenDivine env token w) in
  chainCalls (trace w1) = (chainCalls (trace w) ++ [isTokenDivineCall token])%list /\
  forall b, zephyr_isTokenDivine env (trace w) token = Returned b ->
    fst (isTokenDivine env token w) = Returned b /\
    divineTokensCache w1 = <[token := b]> (divineTokensCache w) /\
    trace w1 = (trace w ++ [Chain (isTokenDivineCall token);
                            WriteFile DIVINE_TOKENS_CACHE_PATH])%list /\
    divineTokensCacheFile w1 =
      match fs_writeFileSync env (trace w ++ [Chain (isTokenDivineCall token)])
                             DIVINE_TOKENS_CACHE_PATH with
      | Returned _ => Holds (<[token := b]> (divineTokensCache w))
      | Thrown _ => divineTokensCacheFile w
      end /\
    isTokenDivine env token w1 = (Returned b, w1) /\
    forall w2,
      divineTokensCache w2 !! token = Some b ->
      isTokenDivine env token w2 = (Returned b, w2).
Proof.
  intros Hmiss w1. split.
  - apply isTokenDivine_miss_chainCalls, Hmiss.
  - intros b Hv. subst w1.
    rewrite (isTokenDivine_miss_answered env _ _ _ Hmiss Hv). simpl.
    split; [reflexivity|].
    split; [apply answered_cache|].
    split; [apply answered_trace|].
    split.
    + unfold answered, saved. simpl.
      destruct (fs_writeFileSync env _ DIVINE_TOKENS_CACHE_PATH); reflexivity.
    + split; [|intros w2; apply isTokenDivine_hit].
      apply isTokenDivine_hit. rewrite answered_cache. apply lookup_insert_eq.
Qed.

Lemma C3_isTokenDivine_read_through_witness :
  let env := Sample.outside None in
  let w1 := snd (isTokenDivine env Sample.tokenA Sample.fresh) in
  chainCalls (trace w1) = [isTokenDivineCall Sample.tokenA] /\
  fst (isTokenDivine env Sample.tokenA Sample.fresh) = Returned false /\
  divineTokensCacheFile w1 = Holds {[ Sample.tokenA := false ]} /\
  isTokenDivine env Sample.tokenA w1 = (Returned false, w1).
Proof.
  intros env w1.
  destruct (C3_isTokenDivine_read_through env Sample.tokenA Sample.fresh eq_refl)
    as [Hcalls Hok].
  destruct (Hok false eq_refl) as (Hret & _ & _ & Hfile & Hagain & _).
  split; [exact Hcalls|]. split; [exact Hret|]. split; [exact Hfile|exact Hagain].
Defined.

(** C6. [isTokenDivine] fails closed. When the token is not cached and the
    view call of the chain throws, the call returns [false]; and whatever
    the cache and the chain, the call returns a boolean and never throws. *)
Theorem C6_isTokenDivine_fail_closed (env : Env) (token : string) (w : World) :
  (exists b, fst (isTokenDivine env token w) = Returned b) /\
  forall msg,
    divineTokensCache w !! token = None ->
    zephyr_isTokenDivine env (trace w) token = Thrown msg ->
    fst (isTokenDivine env token w) = Returned false.
Proof.
  split; [apply isTokenDivine_returns|].
  intros msg Hmiss Hv. rewrite (isTokenDivine_miss_thrown env _ _ _ Hmiss Hv).
  reflexivity.
Qed.

Lemma C6_isTokenDivine_fail_closed_witness :
  fst (isTokenDivine (Sample.unreachable None) Sample.tokenA Sample.fresh) = Returned false.
Proof.
  exact (proj2 (C6_isTokenDivine_fail_closed (Sample.unreachable None) Sample.tokenA
                  Sample.fresh) "could not detect network" eq_refl eq_refl).
Defined.

(** C9. A failed view call is not cached. When the token is not cached and
    the view call throws, the call leaves the cache, the cache file and the
    transaction file as they were and adds the one chain call to the trace;
    the token is still not cached, so the next call for it makes the view
    call again. *)
Theorem C9_isTokenDivine_failure_not_cached (env : Env) (token : string) (w : World)
    (msg : string) :
  divineTokensCache w !! token = None ->
  zephyr_isTokenDivine env (trace w) token = Thrown msg ->
  let w1 := snd (isTokenDivine env token w) in
  divineTokensCache w1 = divineTokensCache w /\
  divineTokensCacheFile w1 = divineTokensCacheFile w /\
  trdb w1 = trdb w /\
  trace w1 = (trace w ++ [Chain (isTokenDivineCall token)])%list /\
  chainCalls (trace (snd (isTokenDivine env token w1)))
  = (chainCalls (trace w1) ++ [isTokenDivineCall token])%list.
Proof.
  intros Hmiss Hv w1. subst w1.
  rewrite (isTokenDivine_miss_thrown env _ _ _ Hmiss Hv). simpl.
  repeat (split; [reflexivity|]).
  set (w1 := with_trace _ w).
  apply (isTokenDivine_miss_chainCalls env token w1). exact Hmiss.
Qed.

Lemma C9_isTokenDivine_failure_not_cached_witness :
  let env := Sample.unreachable None in
  let w1 := snd (isTokenDivine env Sample.tokenA Sample.fresh) in
  divineTokensCache w1 = ∅ /\
  divineTokensCacheFile w1 = Absent /\
  trdb w1 = Absent /\
  trace w1 = [Chain (isTokenDivineCall Sample.tokenA)] /\
  chainCalls (trace (snd (isTokenDivine env Sample.tokenA w1)))
  = [isTokenDivineCall Sample.tokenA; isTokenDivineCall Sample.tokenA].
Proof.
  exact (C9_isTokenDivine_failure_not_cached (Sample.unreachable None) Sample.tokenA
           Sample.fresh "could not detect network" eq_refl eq_refl).
Defined.

(** ** Properties of the list of eligible tokens *)

Lemma elem_of_divineTokensOf (cache : gmap string bool) (t : string) :
  t ∈ divineTokensOf cache <-> cache !! t = Some true.
Proof.
  unfold divineTokensOf. rewrite list_elem_of_filter. split.
  - intros [H _]. exact H.
  - intros H. split; [exact H|].
    apply list_elem_of_fmap. exists (t, true). split; [reflexivity|].
    apply elem_of_map_to_list. exact H.
Qed.

Lemma NoDup_divineTokensOf (cache : gmap string bool) : NoDup (divineTokensOf cache).
Proof. unfold divineTokensOf. apply NoDup_filter, NoDup_fst_map_to_list. Qed.

(** C10. The cache keeps negative verdicts. When the token is not cached and
    the view answers [false], the call caches [false] (and rewrites the
    cache file with it, unless the write is refused), and the next call
    returns [false] and changes nothing: no chain call. The token is then a
    key of the cache but is not in the list that [GET /divine-tokens]
    answers: for every cache that list holds, once each, exactly the keys
    whose value is [true]. *)
Theorem C10_negative_verdict_cached (env : Env) (token : string) (w : World) :
  divineTokensCache w !! token = None ->
  zephyr_isTokenDivine env (trace w) token = Returned false ->
  let w1 := snd (isTokenDivine env token w) in
  divineTokensCache w1 !! token = Some false /\
  divineTokensCacheFile w1 =
    match fs_writeFileSync env (trace w ++ [Chain (isTokenDivineCall token)])
                           DIVINE_TOKENS_CACHE_PATH with
    | Returned _ => Holds (divineTokensCache w1)
    | Thrown _ => divineTokensCacheFile w
    end /\
  isTokenDivine env token w1 = (Returned false, w1) /\
  (token ∉ divineTokensOf (divineTokensCache w1)) /\
  (forall req w2,
     divineTokens req w2
     = (Returned (mkResponse 200 (DivineTokensBody (divineTokensOf (divineTokensCache w2)))),
        w2)) /\
  (forall cache : gmap string bool,
     NoDup (divineTokensOf cache) /\
     forall t, t ∈ divineTokensOf cache <-> cache !! t = Some true).
Proof.
  intros Hmiss Hv w1. subst w1.
  rewrite (isTokenDivine_miss_answered env _ _ _ Hmiss Hv). simpl.
  assert (Hc : divineTokensCache (answered env token false w) !! token = Some false).
  { rewrite answered_cache. apply lookup_insert_eq. }
  split; [exact Hc|]. split.
  { unfold answered, saved. simpl.
    destruct (fs_writeFileSync env _ DIVINE_TOKENS_CACHE_PATH); reflexivity. }
  split; [apply isTokenDivine_hit, Hc|]. split.
  { rewrite elem_of_divineTokensOf, Hc. discriminate. }
  split; [reflexivity|].
  intros cache. split; [apply NoDup_divineTokensOf|apply elem_of_divineTokensOf].
Qed.

Lemma C10_negative_verdict_cached_witness :
  let env := Sample.outside None in
  let w1 := snd (isTokenDivine env Sample.tokenA Sample.fresh) in
  divineTokensCache w1 !! Sample.tokenA = Some false /\
  divineTokensCacheFile w1 = Holds (divineTokensCache w1) /\
  isTokenDivine env Sample.tokenA w1 = (Returned false, w1) /\
  Sample.tokenA ∉ divineTokensOf (divineTokensCache w1).
Proof.
  destruct (C10_negative_verdict_cached (Sample.outside None) Sample.tokenA Sample.fresh
              eq_refl eq_refl) as (Hc & Hf & Hagain & Hnot & _).
  repeat split; assumption.
Defined.

(** ** Properties of the routes *)

Lemma API_KEY_not_empty (env : Env) : String.eqb (API_KEY env) "" = false.
Proof.
  unfold API_KEY. destruct (env_API_KEY env) as [k|]; [|reflexivity].
  destruct (String.eqb k "") eqn:E; [reflexivity|exact E].
Qed.

(** A request that presents [API_KEY] goes on to the handler. *)
Lemma validateApiKey_next (env : Env) (req : Request) (next : Js Response) :
  x_api_key req = Some (API_KEY env) ->
  validateApiKey env req next = next.
Proof.
  intros H. unfold validateApiKey. rewrite H.
  rewrite API_KEY_not_empty, String.eqb_refl. reflexivity.
Qed.

(** Any other request is answered 401, and [next] is not run. *)
Lemma validateApiKey_unauthorized (env : Env) (req : Request) (next : Js Response) :
  x_api_key req <> Some (API_KEY env) ->
  validateApiKey env req next = ret unauthorized.
Proof.
  intros H. unfold validateApiKey.
  destruct (x_api_key req) as [k|]; [|reflexivity].
  destruct (String.eqb k "") eqn:E; [reflexivity|]. simpl.
  destruct (String.eqb_spec k (API_KEY env)) as [->|Hne]; [|reflexivity].
  contradiction H. reflexivity.
Qed.

(** C7. On each of the four authenticated routes, a request whose
    [x-api-key] header is absent or is not the configured key is answered
    401 with the fixed body, and the world is left as it was: no handler
    step, no chain call, no change of state. [GET /health] answers 200 with
    its fixed body to any request, with or without a key. *)
Theorem C7_unauthorized_is_401 (env : Env) (r : Route) (req : Request) (w : World) :
  (authenticated r = true ->
   x_api_key req <> Some (API_KEY env) ->
   serve env r req w
   = (Returned (mkResponse 401 (ErrorBody "Unauthorized: Invalid API key")), w)) /\
  serve env GET_health req w
  = (Returned (mkResponse 200 (HealthBody "Olympus is in harmony")), w).
Proof.
  split; [|reflexivity].
  intros Hauth Hkey.
  destruct r; try discriminate Hauth; simpl;
    rewrite (validateApiKey_unauthorized env req _ Hkey); reflexivity.
Qed.

Lemma C7_unauthorized_is_401_witness :
  serve (Sample.outside (Some "s3cret")) POST_bless_token
        (Sample.request (Some "guess") (JString Sample.tokenA) JUndefined JUndefined)
        Sample.fresh
  = (Returned (mkResponse 401 (ErrorBody "Unauthorized: Invalid API key")), Sample.fresh).
Proof.
  apply (proj1 (C7_unauthorized_is_401 (Sample.outside (Some "s3cret")) POST_bless_token
                  (Sample.request (Some "guess") (JString Sample.tokenA) JUndefined JUndefined)
                  Sample.fresh)).
  - reflexivity.
  - discriminate.
Defined.

(** C8. When [process.env.API_KEY] is not set, a request whose [x-api-key]
    header is the literal [default-secure-api-key] passes the check on every
    authenticated route: the route runs its handler. *)
Theorem C8_default_key_passes (env : Env) (r : Route) (req : Request) :
  env_API_KEY env = None ->
  x_api_key req = Some "default-secure-api-key" ->
  authenticated r = true ->
  serve env r req = handler env r req.
Proof.
  intros Hunset Hkey _.
  assert (H : x_api_key req = Some (API_KEY env)).
  { unfold API_KEY. rewrite Hunset. exact Hkey. }
  destruct r; simpl; try apply (validateApiKey_next env req _ H). reflexivity.
Qed.

Lemma C8_default_key_passes_witness :
  serve (Sample.outside None) GET_divine_tokens
        (Sample.request (Some "default-secure-api-key") JUndefined JUndefined JUndefined)
  = handler (Sample.outside None) GET_divine_tokens
        (Sample.request (Some "default-secure-api-key") JUndefined JUndefined JUndefined).
Proof.
  apply (C8_default_key_passes (Sample.outside None) GET_divine_tokens
           (Sample.request (Some "default-secure-api-key") JUndefined JUndefined JUndefined));
    reflexivity.
Defined.



(** ** Properties of the transaction log *)

Lemma transactionExists_elem_of (h : string) (db : list TxData) :
  transactionExists h db = true <-> h ∈ txHash <$> db.
Proof.
  unfold transactionExists. rewrite existsb_exists, list_elem_of_fmap.
  split.
  - intros (tx & Hin & Heq). exists tx. apply String.eqb_eq in Heq.
    split; [symmetry; exact Heq|]. apply list_elem_of_In, Hin.
  - intros (tx & Heq & Hin). exists tx.
    split; [apply list_elem_of_In, Hin|]. apply String.eqb_eq. symmetry. exact Heq.
Qed.

Lemma transactionExists_false (h : string) (db : list TxData) :
  transactionExists h db = false <-> h ∉ txHash <$> db.
Proof.
  rewrite <- transactionExists_elem_of.
  destruct (transactionExists h db); split; intros H; congruence.
Qed.

Lemma loadTransactionDB_log (w : World) :
  loadTransactionDB w = (Returned (transactionLog w), w).
Proof. unfold loadTransactionDB, transactionLog. destruct (trdb w); reflexivity. Qed.

(** The three ways [appendTransaction] ends. *)
Lemma appendTransaction_cases (env : Env) (tx : TxData) (w : World) :
  (transactionExists (txHash tx) (transactionLog w) = true /\
   appendTransaction env tx w = (Returned tt, w)) \/
  (transactionExists (txHash tx) (transactionLog w) = false /\
   exists msg, fs_writeFileSync env (trace w) TRDB_PATH = Thrown msg /\
   appendTransaction env tx w
   = (Thrown msg, with_trace (trace w ++ [WriteFile TRDB_PATH]) w)) \/
  (transactionExists (txHash tx) (transactionLog w) = false /\
   fs_writeFileSync env (trace w) TRDB_PATH = Returned tt /\
   appendTransaction env tx w
   = (Returned tt, with_trdb (Holds (transactionLog w ++ [tx])%list)
                     (with_trace (trace w ++ [WriteFile TRDB_PATH]) w))).
Proof.
  unfold appendTransaction, bind. rewrite loadTransactionDB_log.
  destruct (transactionExists (txHash tx) (transactionLog w)) eqn:E; simpl.
  - left. split; reflexivity.
  - right. unfold saveTransactionDB, bind, perform.
    destruct (fs_writeFileSync env (trace w) TRDB_PATH) as [[]|msg] eqn:Hw; simpl.
    + right. repeat split; reflexivity.
    + left. split; [reflexivity|]. exists msg. split; reflexivity.
Qed.

(** [appendTransaction] keeps the identifiers of the log distinct. *)
Lemma appendTransaction_NoDup (env : Env) (tx : TxData) (w : World) :
  NoDup (txHash <$> transactionLog w) ->
  NoDup (txHash <$> transactionLog (snd (appendTransaction env tx w))).
Proof.
  intros Hnd.
  destruct (appendTransaction_cases env tx w)
    as [[_ ->]|[(_ & msg & _ & ->)|(Hnew & _ & ->)]]; try exact Hnd.
  unfold transactionLog at 1. simpl. rewrite fmap_app. simpl.
  apply NoDup_app. split; [exact Hnd|]. split; [|apply NoDup_singleton].
  intros h Hin Hin'. apply list_elem_of_singleton in Hin'. subst h.
  apply transactionExists_false in Hnew. contradiction.
Qed.


Lemma getTokenDecimals_returns (env : Env) (token : string) (w : World) :
  getTokenDecimals env token w
  = (Returned (decimalsOf env w token),
     with_trace (trace w ++ [Chain (decimalsCall token)]) w).
Proof.
  unfold getTokenDecimals, try_catch, perform, decimalsOf.
  destruct (token_decimals env (trace w) token); reflexivity.
Qed.

(** The Offering handler, step by step: the decimals, the formatted amount,
    the append, the notification. It never throws. *)
Lemma onOffering_steps (env : Env) (ev : Offering) (w : World) :
  onOffering env ev w =
  (Returned tt,
   let w0 := with_trace (trace w ++ [Chain (decimalsCall (offeredToken ev))]) w in
   match formatUnits env (offeredAmount ev) (decimalsOf env w (offeredToken ev)) with
   | Thrown _ => w0
   | Returned formatted =>
       let txData :=
         mkTxData (Date_now env (trace w0)) (mortal ev) (offeredToken ev)
                  (pretty (offeredAmount ev)) formatted (offeringHash ev) in
       match appendTransaction env txData w0 with
       | (Thrown _, wa) => wa
       | (Returned _, wa) =>
           with_trace
             (trace wa ++
              [Post (mkNotification (mortal ev) (offeredToken ev)
                       (pretty (offeredAmount ev)) formatted (offeringHash ev)
                       (Date_toISOString env (trace wa)))]) wa
       end
   end).
Proof.
  unfold onOffering, try_catch, bind. rewrite getTokenDecimals_returns.
  unfold lift, clock.
  destruct (formatUnits env (offeredAmount ev) (decimalsOf env w (offeredToken ev)))
    as [formatted|msg]; [|reflexivity].
  cbv zeta.
  destruct (appendTransaction env _ _) as [[[]|msg] wa]; [|reflexivity].
  unfold perform, ret. destruct (axios_post env _ _) as [[]|msg]; reflexivity.
Qed.

(** The handler appends the record of an event that is not in the log, when
    the amount formats and the write is accepted. *)
Lemma onOffering_appends (env : Env) (ev : Offering) (w : World) :
  writesSucceed env ->
  formatsSucceed env ->
  transactionExists (offeringHash ev) (transactionLog w) = false ->
  exists tx,
    recordOf ev tx /\
    transactionLog (snd (onOffering env ev w)) = (transactionLog w ++ [tx])%list.
Proof.
  intros Hwrite Hformat Hnew. rewrite onOffering_steps. cbv zeta. simpl.
  destruct (Hformat (offeredAmount ev) (decimalsOf env w (offeredToken ev)))
    as [formatted ->].
  match goal with |- context [appendTransaction env ?t ?u] =>
    set (tx := t); set (w0 := u);
    destruct (appendTransaction_cases env tx w0)
      as [[Hex _]|[(_ & msg & Hw & _)|(_ & _ & ->)]]
  end.
  - unfold transactionLog in Hex at 1. simpl in Hex. fold (transactionLog w) in Hex.
    congruence.
  - rewrite Hwrite in Hw. discriminate Hw.
  - exists tx. split; [repeat split|]. reflexivity.
Qed.

(** The handler leaves the log of a delivered identifier alone, and posts
    the notification all the same when the amount formats. *)
Lemma onOffering_duplicate (env : Env) (ev : Offering) (w : World) :
  transactionExists (offeringHash ev) (transactionLog w) = true ->
  snd (onOffering env ev w) =
  let w0 := with_trace (trace w ++ [Chain (decimalsCall (offeredToken ev))]) w in
  match formatUnits env (offeredAmount ev) (decimalsOf env w (offeredToken ev)) with
  | Thrown _ => w0
  | Returned formatted =>
      with_trace
        (trace w0 ++
         [Post (mkNotification (mortal ev) (offeredToken ev)
                  (pretty (offeredAmount ev)) formatted (offeringHash ev)
                  (Date_toISOString env (trace w0)))]) w0
  end.
Proof.
  intros Hex. rewrite onOffering_steps. cbv zeta. simpl.
  destruct (formatUnits env _ _) as [formatted|msg]; [|reflexivity].
  match goal with |- context [appendTransaction env ?t ?w0] =>
    destruct (appendTransaction_cases env t w0)
      as [[_ ->]|[(Hnew & _)|(Hnew & _)]]
  end; [reflexivity|..];
    unfold transactionLog in Hnew at 1; simpl in Hnew; fold (transactionLog w) in Hnew;
    congruence.
Qed.

Lemma recordOf_txHash (evs : list Offering) (recs : list TxData) :
  Forall2 recordOf evs recs -> txHash <$> recs = offeringHash <$> evs.
Proof.
  induction 1 as [|ev tx evs recs (_ & _ & _ & Hh) _ IH]; [reflexivity|].
  rewrite !fmap_cons. f_equal; assumption.
Qed.

(** Callbacks of events with distinct identifiers, none of them logged yet,
    append one record each as they resume. *)
Lemma resumeAll_appends (env : Env) (evs : list Offering) :
  writesSucceed env ->
  formatsSucceed env ->
  NoDup (offeringHash <$> evs) ->
  forall w,
    (forall ev, ev ∈ evs -> transactionExists (offeringHash ev) (transactionLog w) = false) ->
    exists recs,
      Forall2 recordOf evs recs /\
      transactionLog (resumeAll env evs w) = (transactionLog w ++ recs)%list.
Proof.
  intros Hwrite Hformat. induction evs as [|ev evs IH]; intros Hnd w Hnew.
  - exists []. split; [constructor|]. simpl. rewrite app_nil_r. reflexivity.
  - simpl in Hnd. apply NoDup_cons in Hnd as [Hfresh Hnd].
    destruct (onOffering_appends env ev w Hwrite Hformat) as (tx & Hrec & Hlog).
    { apply Hnew. left. }
    destruct (IH Hnd (snd (onOffering env ev w))) as (recs & Hrecs & Hlogs).
    { intros ev' Hin. rewrite Hlog. apply transactionExists_false.
      rewrite fmap_app. intros Hmem. apply elem_of_app in Hmem as [Hmem|Hmem].
      - apply transactionExists_elem_of in Hmem.
        rewrite (Hnew ev') in Hmem; [discriminate|]. right. exact Hin.
      - simpl in Hmem. apply list_elem_of_singleton in Hmem.
        destruct Hrec as (_ & _ & _ & Hh). rewrite Hh in Hmem.
        apply Hfresh. rewrite <- Hmem. apply list_elem_of_fmap. exists ev'.
        split; [reflexivity|exact Hin]. }
    exists (tx :: recs). split; [constructor; assumption|].
    simpl. rewrite Hlogs, Hlog, <- app_assoc. reflexivity.
Qed.

(** Whatever the outside, the handler only ever appends to the log. *)
Lemma onOffering_log (env : Env) (ev : Offering) (w : World) :
  transactionLog (snd (onOffering env ev w)) = transactionLog w \/
  exists tx,
    recordOf ev tx /\
    transactionExists (offeringHash ev) (transactionLog w) = false /\
    transactionLog (snd (onOffering env ev w)) = (transactionLog w ++ [tx])%list.
Proof.
  rewrite onOffering_steps. cbv zeta. simpl.
  destruct (formatUnits env _ _) as [formatted|msg]; [|left; reflexivity].
  match goal with |- context [appendTransaction env ?t ?u] =>
    set (tx := t); set (w0 := u);
    destruct (appendTransaction_cases env tx w0)
      as [[_ ->]|[(_ & msg & _ & ->)|(Hnew & _ & ->)]]
  end; [left; reflexivity|left; reflexivity|].
  right. exists tx. split; [repeat split|]. split; [exact Hnew|reflexivity].
Qed.

Lemma onOffering_NoDup (env : Env) (ev : Offering) (w : World) :
  NoDup (txHash <$> transactionLog w) ->
  NoDup (txHash <$> transactionLog (snd (onOffering env ev w))).
Proof.
  intros Hnd. destruct (onOffering_log env ev w) as [->|(tx & Hrec & Hnew & ->)];
    [exact Hnd|].
  rewrite fmap_app. apply NoDup_app. split; [exact Hnd|].
  split; [|apply NoDup_singleton].
  intros h Hin Hin'. apply list_elem_of_singleton in Hin'. subst h.
  destruct Hrec as (_ & _ & _ & Hh). rewrite Hh in Hin.
  apply transactionExists_false in Hnew. contradiction.
Qed.

Lemma resumeAll_NoDup (env : Env) (evs : list Offering) (w : World) :
  NoDup (txHash <$> transactionLog w) ->
  NoDup (txHash <$> transactionLog (resumeAll env evs w)).
Proof.
  revert w. induction evs as [|ev evs IH]; intros w Hnd; [exact Hnd|].
  simpl. apply IH, onOffering_NoDup, Hnd.
Qed.

(** After the handler, the identifier of the event is in the log. *)
Lemma onOffering_logged (env : Env) (ev : Offering) (w : World) :
  writesSucceed env ->
  formatsSucceed env ->
  offeringHash ev ∈ txHash <$> transactionLog (snd (onOffering env ev w)).
Proof.
  intros Hwrite Hformat.
  destruct (transactionExists (offeringHash ev) (transactionLog w)) eqn:Hex.
  - rewrite (onOffering_duplicate env ev w Hex). cbv zeta.
    apply transactionExists_elem_of in Hex.
    destruct (formatUnits env _ _); exact Hex.
  - destruct (onOffering_appends env ev w Hwrite Hformat Hex)
      as (tx & (_ & _ & _ & Hh) & ->).
    rewrite fmap_app. apply elem_of_app. right. simpl. rewrite Hh. left.
Qed.

(** A logged identifier stays logged. *)
Lemma resumeAll_keeps (env : Env) (evs : list Offering) (w : World) (h : string) :
  h ∈ txHash <$> transactionLog w ->
  h ∈ txHash <$> transactionLog (resumeAll env evs w).
Proof.
  revert w. induction evs as [|ev evs IH]; intros w Hin; [exact Hin|].
  simpl. apply IH.
  destruct (onOffering_log env ev w) as [->|(tx & _ & _ & ->)]; [exact Hin|].
  rewrite fmap_app. apply elem_of_app. left. exact Hin.
Qed.

Lemma resumeAll_logged (env : Env) (evs : list Offering) :
  writesSucceed env ->
  formatsSucceed env ->
  forall w ev,
    ev ∈ evs -> offeringHash ev ∈ txHash <$> transactionLog (resumeAll env evs w).
Proof.
  intros Hwrite Hformat. induction evs as [|ev0 evs IH]; intros w ev Hin.
  - inversion Hin.
  - simpl. apply elem_of_cons in Hin as [->|Hin].
    + apply resumeAll_keeps, onOffering_logged; assumption.
    + apply IH, Hin.
Qed.

(** ** The listener *)

Lemma listen_cons (env : Env) (t : Tick) (ts : list Tick) (l : Listener) :
  listen env (t :: ts) l = listen env ts (tick env l t).
Proof. reflexivity. Qed.

(** The world after a schedule is the world after the callbacks that
    resumed, taken in the order in which they resumed. *)
Lemma listen_world (env : Env) (ts : list Tick) :
  forall l, world (listen env ts l) = resumeAll env (resumed ts (waiting l)) (world l).
Proof.
  induction ts as [|[ev|i] ts IH]; intros l; [reflexivity|..];
    rewrite listen_cons, IH; simpl.
  - reflexivity.
  - destruct (waiting l !! i) as [ev|]; reflexivity.
Qed.

(** No callback is lost and none is made up: those that resumed and those
    that still wait are those that waited and the events emitted since. *)
Lemma listen_waiting (env : Env) (ts : list Tick) :
  forall l,
    (resumed ts (waiting l) ++ waiting (listen env ts l))%list
    ≡ₚ (waiting l ++ emitted ts)%list.
Proof.
  induction ts as [|[ev|i] ts IH]; intros l.
  - simpl. rewrite app_nil_r. reflexivity.
  - rewrite listen_cons. simpl resumed. simpl emitted.
    rewrite (IH (tick env l (Emitted ev))). simpl. rewrite <- app_assoc. reflexivity.
  - rewrite listen_cons. simpl resumed. simpl emitted.
    destruct (waiting l !! i) as [ev|] eqn:E; simpl; rewrite E.
    + etrans;
        [apply perm_skip,
           (IH (mkListener (snd (onOffering env ev (world l))) (delete i (waiting l))))|].
      simpl. rewrite app_comm_cons. apply Permutation_app_tail.
      symmetry. apply delete_Permutation, E.
    + apply IH.
Qed.

(** Handling each event before the next is emitted resumes the callbacks in
    arrival order and leaves none waiting. *)
Lemma oneByOne_resumed (env : Env) (evs : list Offering) :
  forall w,
    emitted (oneByOne evs) = evs /\
    resumed (oneByOne evs) [] = evs /\
    waiting (listen env (oneByOne evs) (mkListener w [])) = [].
Proof.
  induction evs as [|ev evs IH]; intros w; [repeat split|].
  destruct (IH (snd (onOffering env ev w))) as (He & Hr & Hw).
  simpl. rewrite He, Hr. repeat split. exact Hw.
Qed.

(** Two lists with the same identifiers, position by position, are the same
    list when they are drawn from events of distinct identifiers. *)
Lemma offeringHash_inj_in (evs : list Offering) (x y : Offering) :
  NoDup (offeringHash <$> evs) ->
  x ∈ evs -> y ∈ evs -> offeringHash x = offeringHash y -> x = y.
Proof.
  induction evs as [|ev evs IH]; intros Hnd Hx Hy Heq; [inversion Hx|].
  simpl in Hnd. apply NoDup_cons in Hnd as [Hfresh Hnd].
  apply elem_of_cons in Hx as [->|Hx]; apply elem_of_cons in Hy as [->|Hy].
  - reflexivity.
  - exfalso. apply Hfresh. rewrite Heq. apply list_elem_of_fmap. exists y. auto.
  - exfalso. apply Hfresh. rewrite <- Heq. apply list_elem_of_fmap. exists x. auto.
  - apply IH; assumption.
Qed.

Lemma offeringHash_eq_lists (evs xs ys : list Offering) :
  NoDup (offeringHash <$> evs) ->
  (forall x, x ∈ xs -> x ∈ evs) ->
  (forall y, y ∈ ys -> y ∈ evs) ->
  offeringHash <$> xs = offeringHash <$> ys -> xs = ys.
Proof.
  intros Hnd. revert ys. induction xs as [|x xs IH]; intros [|y ys] Hx Hy Heq;
    try discriminate Heq; [reflexivity|].
  simpl in Heq. injection Heq as Hh Ht. f_equal.
  - apply (offeringHash_inj_in evs); [exact Hnd|apply Hx; left|apply Hy; left|exact Hh].
  - apply IH; [intros z Hz; apply Hx; right; exact Hz
              |intros z Hz; apply Hy; right; exact Hz|exact Ht].
Qed.

(** C2, as the code has it. [appendTransaction] keeps the identifiers of the
    log pairwise distinct, and so does the listener under any schedule of
    events and settlements. When the outside formats the amounts and accepts
    the writes (otherwise the handler logs the error and skips the record)
    and the events emitted have pairwise distinct identifiers, none of them
    in the log yet, the log gains exactly one record per callback that has
    resumed, with the sender, token, amount and identifier of its event,
    and the callbacks that have resumed or still wait are the events
    emitted. The records are in the order in which the callbacks resumed,
    that is, in which the [decimals()] calls settled: once no callback
    waits, the log is in arrival order if and only if the callbacks resumed
    in arrival order, as they do when each event is handled before the next
    is emitted. *)
Theorem C2_log_one_record_per_identifier (env : Env) (ts : list Tick) (w : World) :
  let l := listen env ts (mkListener w []) in
  (forall tx w',
     NoDup (txHash <$> transactionLog w') ->
     NoDup (txHash <$> transactionLog (snd (appendTransaction env tx w')))) /\
  (NoDup (txHash <$> transactionLog w) ->
   NoDup (txHash <$> transactionLog (world l))) /\
  (resumed ts [] ++ waiting l)%list ≡ₚ emitted ts /\
  (writesSucceed env ->
   formatsSucceed env ->
   (forall ev,
      ev ∈ resumed ts [] -> offeringHash ev ∈ txHash <$> transactionLog (world l)) /\
   (NoDup (offeringHash <$> emitted ts) ->
    (forall ev,
       ev ∈ emitted ts -> transactionExists (offeringHash ev) (transactionLog w) = false) ->
   (exists recs,
      Forall2 recordOf (resumed ts []) recs /\
      transactionLog (world l) = (transactionLog w ++ recs)%list) /\
   txHash <$> transactionLog (world l)
   = ((txHash <$> transactionLog w) ++ (offeringHash <$> resumed ts []))%list /\
   (waiting l = [] ->
    (txHash <$> transactionLog (world l)
     = ((txHash <$> transactionLog w) ++ (offeringHash <$> emitted ts))%list
     <-> resumed ts [] = emitted ts)))) /\
  (forall evs,
     ts = oneByOne evs ->
     emitted ts = evs /\ resumed ts [] = evs /\ waiting l = []).
Proof.
  intros l.
  assert (Hworld : world l = resumeAll env (resumed ts []) w)
    by (subst l; apply (listen_world env ts (mkListener w []))).
  assert (Hperm : (resumed ts [] ++ waiting l)%list ≡ₚ emitted ts)
    by (subst l; apply (listen_waiting env ts (mkListener w []))).
  split; [intros tx w'; apply appendTransaction_NoDup|].
  split; [rewrite Hworld; apply resumeAll_NoDup|].
  split; [exact Hperm|].
  split; [|intros evs ->; apply (oneByOne_resumed env evs w)].
  intros Hwrite Hformat.
  split; [intros ev; rewrite Hworld; apply resumeAll_logged; assumption|].
  intros Hnd Hnew.
  assert (Hin : forall ev, ev ∈ resumed ts [] -> ev ∈ emitted ts).
  { intros ev Hev. rewrite <- Hperm. apply elem_of_app. left. exact Hev. }
  assert (Hnd' : NoDup (offeringHash <$> resumed ts [])).
  { rewrite <- Hperm, fmap_app in Hnd. apply NoDup_app in Hnd. apply Hnd. }
  destruct (resumeAll_appends env (resumed ts []) Hwrite Hformat Hnd' w)
    as (recs & Hrecs & Hlog); [intros ev Hev; apply Hnew, Hin, Hev|].
  assert (Hids : txHash <$> transactionLog (world l)
                 = ((txHash <$> transactionLog w)
                    ++ (offeringHash <$> resumed ts []))%list).
  { rewrite Hworld, Hlog, fmap_app, (recordOf_txHash _ _ Hrecs). reflexivity. }
  split; [exists recs; split; [exact Hrecs|rewrite Hworld; exact Hlog]|].
  split; [exact Hids|].
  intros Hnone. rewrite Hids. split.
  - intros Heq. apply app_inv_head in Heq.
    apply (offeringHash_eq_lists (emitted ts)); auto.
  - intros ->. reflexivity.
Qed.

Lemma C2_log_one_record_per_identifier_witness :
  txHash <$> transactionLog
               (world (listen (Sample.outside None)
                         (oneByOne [Sample.offering1; Sample.offering2])
                         (mkListener Sample.fresh [])))
  = ["0xhash1"; "0xhash2"].
Proof.
  refine (proj1 (proj2 (proj2 (proj1 (proj2 (proj2 (proj2
            (C2_log_one_record_per_identifier
               (Sample.outside None)
               (oneByOne [Sample.offering1; Sample.offering2])
               Sample.fresh)))) _ _) _ _))).
  - intros tr path. reflexivity.
  - intros a d. eexists. reflexivity.
  - apply (bool_decide_eq_true_1 _). vm_compute. reflexivity.
  - intros ev _. reflexivity.
Defined.

(** C2, as the specification has it, fails. Two events with distinct
    identifiers are emitted one after the other; the [decimals()] call of
    the second settles first. Both callbacks have resumed, the log holds
    one record per identifier, and the record of the second event comes
    before the record of the first: the log is not in arrival order. *)
Lemma C2_log_not_in_arrival_order :
  let env := Sample.outside None in
  let ts := [Emitted Sample.offering1; Emitted Sample.offering2; Settled 1; Settled 0] in
  let l := listen env ts (mkListener Sample.fresh []) in
  offeringHash <$> emitted ts = ["0xhash1"; "0xhash2"] /\
  waiting l = [] /\
  txHash <$> transactionLog (world l) = ["0xhash2"; "0xhash1"] /\
  txHash <$> transactionLog (world l) <> offeringHash <$> emitted ts.
Proof.
  vm_compute. repeat (split; [reflexivity|]). discriminate.
Qed.

(** C1, as the code has it. Handling an event whose identifier is already in
    the log leaves the transaction file, hence the size and the content of
    the log, as they were, and leaves the cache and its file alone. The
    notifier is not held back: when the amount formats, the handler posts
    the notification of this delivery, one more POST than before. *)
Theorem C1_redelivery_keeps_log_and_notifies (env : Env) (ev : Offering) (w : World) :
  transactionExists (offeringHash ev) (transactionLog w) = true ->
  let w1 := snd (onOffering env ev w) in
  trdb w1 = trdb w /\
  divineTokensCache w1 = divineTokensCache w /\
  divineTokensCacheFile w1 = divineTokensCacheFile w /\
  forall formatted,
    formatUnits env (offeredAmount ev) (decimalsOf env w (offeredToken ev))
    = Returned formatted ->
    posts (trace w1)
    = (posts (trace w) ++
       [mkNotification (mortal ev) (offeredToken ev) (pretty (offeredAmount ev))
          formatted (offeringHash ev)
          (Date_toISOString env
             (trace w ++ [Chain (decimalsCall (offeredToken ev))]))])%list.
Proof.
  intros Hex w1. subst w1. rewrite (onOffering_duplicate env ev w Hex). cbv zeta.
  destruct (formatUnits env _ _) as [formatted|msg].
  - repeat (split; [reflexivity|]). intros f [= <-]. simpl.
    rewrite !posts_app. simpl. rewrite app_nil_r. reflexivity.
  - repeat (split; [reflexivity|]). intros f [=].
Qed.

Lemma C1_redelivery_keeps_log_and_notifies_witness :
  let env := Sample.outside None in
  let w1 := snd (onOffering env Sample.offering1 Sample.fresh) in
  let w2 := snd (onOffering env Sample.offering1 w1) in
  trdb w2 = trdb w1 /\
  posts (trace w2)
  = (posts (trace w1) ++
     [mkNotification Sample.mortalB Sample.tokenA "1000000000000000000" "1.0"
        "0xhash1" "2023-11-14T22:13:20.000Z"])%list.
Proof.
  intros env w1 w2.
  destruct (C1_redelivery_keeps_log_and_notifies env Sample.offering1 w1 eq_refl)
    as (Hlog & _ & _ & Hpost).
  split; [exact Hlog|]. apply Hpost. vm_compute. reflexivity.
Defined.

(** C1, as the specification has it, fails. In the sample scenario the first
    delivery of the offering logs one record and posts one notification;
    the replay of the same event finds its identifier in the log, leaves
    the log alone, and posts a second notification. *)
Lemma C1_redelivery_notifies_again :
  let env := Sample.outside None in
  let w1 := snd (onOffering env Sample.offering1 Sample.fresh) in
  let w2 := snd (onOffering env Sample.offering1 w1) in
  transactionExists (offeringHash Sample.offering1) (transactionLog w1) = true /\
  length (transactionLog w1) = 1%nat /\
  transactionLog w2 = transactionLog w1 /\
  length (posts (trace w1)) = 1%nat /\
  length (posts (trace w2)) = 2%nat /\
  posts (trace w2) <> posts (trace w1).
Proof.
  vm_compute. repeat (split; [reflexivity|]). discriminate.
Qed.

(** ** Properties of [/bless-token] *)

Lemma asAddress_Some (env : Env) (v : JsValue) (token : string) :
  asAddress env v = Some token -> v = JString token /\ isAddress env token = true.
Proof.
  destruct v; simpl; try discriminate.
  destruct (isAddress env s) eqn:E; [|discriminate].
  intros [= ->]. split; [reflexivity|exact E].
Qed.

(** Closes a case in which the handler answered something else than 200. *)
Ltac not_200 H Hok := injection H as <- <-; discriminate Hok.

(** The primary [/bless-token]: a 200 means that the token is now cached as
    eligible, that the cache was saved, and that the next [isTokenDivine]
    for it returns [true] and changes nothing, so makes no chain call. *)
Theorem blessToken_caches_eligible (env : Env) (req : Request) (w w1 : World)
    (resp : Response) :
  blessToken env req w = (Returned resp, w1) ->
  status resp = 200 ->
  exists token,
    body_tokenAddress req = JString token /\
    divineTokensCache w1 !! token = Some true /\
    isTokenDivine env token w1 = (Returned true, w1).
Proof.
  unfold blessToken, try_catch, bind. intros H Hok.
  destruct (asAddress env (body_tokenAddress req)) as [token|] eqn:Ha.
  2:{ not_200 H Hok. }
  destruct (isTokenDivine env token w) as [[b|msg] wi].
  2:{ not_200 H Hok. }
  destruct b.
  { not_200 H Hok. }
  unfold perform in H.
  destruct (zephyr_send env (trace wi) (blessTokenCall token)) as [receipt|msg].
  2:{ not_200 H Hok. }
  unfold cache_set in H. rewrite saveDivineTokensCache_saved in H.
  injection H as <- <-.
  exists token. split; [apply (asAddress_Some env _ _ Ha)|].
  assert (Hc : divineTokensCache
                 (saved env (with_cache (<[token:=true]> (divineTokensCache
                     (with_trace (trace wi ++ [Chain (blessTokenCall token)]) wi)))
                     (with_trace (trace wi ++ [Chain (blessTokenCall token)]) wi)))
               !! token = Some true).
  { rewrite saved_cache. apply lookup_insert_eq. }
  split; [exact Hc|]. apply isTokenDivine_hit, Hc.
Qed.

Lemma blessToken_caches_eligible_witness :
  let env := Sample.outside None in
  let req := Sample.request None (JString Sample.tokenA) JUndefined JUndefined in
  let w1 := snd (blessToken env req Sample.fresh) in
  exists token,
    JString Sample.tokenA = JString token /\
    divineTokensCache w1 !! token = Some true /\
    isTokenDivine env token w1 = (Returned true, w1).
Proof.
  intros env req w1.
  apply (blessToken_caches_eligible env req Sample.fresh w1
           (mkResponse 200 (TokenBody Sample.tokenA "0xreceipt" 2))).
  - vm_compute. reflexivity.
  - reflexivity.
Defined.

(** The primary [/bless-token]: a token that [isTokenDivine] reports
    eligible is answered 400, and no transaction is sent: the world is the
    one the lookup left. *)
Theorem blessToken_rejects_eligible (env : Env) (req : Request) (w : World)
    (token : string) :
  asAddress env (body_tokenAddress req) = Some token ->
  fst (isTokenDivine env token w) = Returned true ->
  blessToken env req w
  = (Returned (mkResponse 400 (ErrorBody "Token already blessed")),
     snd (isTokenDivine env token w)).
Proof.
  intros Ha Hd. unfold blessToken, try_catch, bind. rewrite Ha.
  destruct (isTokenDivine env token w) as [o wi]. simpl in Hd. subst o. reflexivity.
Qed.

(** The second copy of [/bless-token]: a 200 means that the token is no
    longer in the cache, so that the next [isTokenDivine] for it asks the
    chain. *)
Theorem Variant2_blessToken_clears_cache (env : Env) (req : Request) (w w1 : World)
    (resp : Response) :
  Variant2.blessToken env req w = (Returned resp, w1) ->
  status resp = 200 ->
  exists token,
    body_tokenAddress req = JString token /\
    divineTokensCache w1 !! token = None /\
    trace (snd (Variant2.isTokenDivine env token w1))
    = (trace w1 ++ [Chain (isTokenDivineCall token)])%list /\
    fst (Variant2.isTokenDivine env token w1)
    = Returned match zephyr_isTokenDivine env (trace w1) token with
               | Returned b => b
               | Thrown _ => false
               end.
Proof.
  unfold Variant2.blessToken, try_catch, bind. intros H Hok.
  destruct (asAddress env (body_tokenAddress req)) as [token|] eqn:Ha.
  2:{ not_200 H Hok. }
  destruct (Variant2.isTokenDivine env token w) as [[b|msg] wi].
  2:{ not_200 H Hok. }
  destruct b.
  { not_200 H Hok. }
  unfold perform in H.
  destruct (zephyr_send env (trace wi) (blessTokenCall token)) as [receipt|msg].
  2:{ not_200 H Hok. }
  unfold cache_delete in H. injection H as <- <-.
  exists token. split; [apply (asAddress_Some env _ _ Ha)|].
  split; [apply lookup_delete_eq|].
  unfold Variant2.isTokenDivine. simpl. rewrite lookup_delete_eq.
  unfold try_catch, bind, perform. simpl.
  destruct (zephyr_isTokenDivine env _ token); split; reflexivity.
Qed.

Lemma Variant2_blessToken_clears_cache_witness :
  let env := Sample.outside None in
  let req := Sample.request None (JString Sample.tokenA) JUndefined JUndefined in
  let w1 := snd (Variant2.blessToken env req Sample.fresh) in
  exists token,
    JString Sample.tokenA = JString token /\
    divineTokensCache w1 !! token = None /\
    trace (snd (Variant2.isTokenDivine env token w1))
    = (trace w1 ++ [Chain (isTokenDivineCall token)])%list /\
    fst (Variant2.isTokenDivine env token w1)
    = Returned match zephyr_isTokenDivine env (trace w1) token with
               | Returned b => b
               | Thrown _ => false
               end.
Proof.
  intros env req w1.
  apply (Variant2_blessToken_clears_cache env req Sample.fresh w1
           (mkResponse 200 (TokenBody Sample.tokenA "0xreceipt" 1))).
  - vm_compute. reflexivity.
  - reflexivity.
Defined.

(** C4. The second copy of [/bless-token] does not keep the blessing. One
    request, with the key, for a token that is not eligible yet, on a
    process that has just started. The primary route answers 200 and the
    next [isTokenDivine] returns [true] from the cache, the world unchanged.
    The second copy answers 200 too, but the token is not in its cache
    afterwards: the next [isTokenDivine] makes a chain call, and when the
    node no longer answers it returns [false] for the token just blessed. *)
Theorem C4_second_copy_forgets_blessing :
  let req :=
    Sample.request (Some "default-secure-api-key") (JString Sample.tokenA)
                   JUndefined JUndefined in
  let env := Sample.outside None in
  let w1 := snd (serve env POST_bless_token req Sample.fresh) in
  let w2 := snd (Variant2.blessToken env req Sample.fresh) in
  let env' := Sample.dropping None in
  let w2' := snd (Variant2.blessToken env' req Sample.fresh) in
  fst (serve env POST_bless_token req Sample.fresh)
  = Returned (mkResponse 200 (TokenBody Sample.tokenA "0xreceipt" 2)) /\
  isTokenDivine env Sample.tokenA w1 = (Returned true, w1) /\
  fst (Variant2.blessToken env req Sample.fresh)
  = Returned (mkResponse 200 (TokenBody Sample.tokenA "0xreceipt" 1)) /\
  divineTokensCache w2 !! Sample.tokenA = None /\
  chainCalls (trace (snd (Variant2.isTokenDivine env Sample.tokenA w2)))
  = (chainCalls (trace w2) ++ [isTokenDivineCall Sample.tokenA])%list /\
  fst (Variant2.blessToken env' req Sample.fresh)
  = Returned (mkResponse 200 (TokenBody Sample.tokenA "0xreceipt" 1)) /\
  fst (Variant2.isTokenDivine env' Sample.tokenA w2') = Returned false.
Proof.
  vm_compute. repeat split; reflexivity.
Qed.

(** ** The scenarios of the specification, run on the sample outside *)

(** [POST /bless-token] for a token that is not eligible answers 200; the
    token is then listed by [GET /divine-tokens]; the same request again is
    answered 400. *)
Example scenario_bless_token :
  let env := Sample.outside None in
  let key := Some "default-secure-api-key" in
  let req := Sample.request key (JString Sample.tokenA) JUndefined JUndefined in
  let w1 := snd (serve env POST_bless_token req Sample.fresh) in
  fst (serve env POST_bless_token req Sample.fresh)
  = Returned (mkResponse 200 (TokenBody Sample.tokenA "0xreceipt" 2)) /\
  fst (serve env GET_divine_tokens req w1)
  = Returned (mkResponse 200 (DivineTokensBody [Sample.tokenA])) /\
  serve env POST_bless_token req w1
  = (Returned (mkResponse 400 (ErrorBody "Token already blessed")), w1).
Proof. vm_compute. repeat split; reflexivity. Qed.

(** A deposit of one token of 18 decimals is logged with the formatted
    amount ["1.0"] and notified once. *)
Example scenario_deposit :
  let env := Sample.outside None in
  let w1 := snd (onOffering env Sample.offering1 Sample.fresh) in
  transactionLog w1
  = [mkTxData 1700000000001 Sample.mortalB Sample.tokenA "1000000000000000000" "1.0"
       "0xhash1"] /\
  posts (trace w1)
  = [mkNotification Sample.mortalB Sample.tokenA "1000000000000000000" "1.0" "0xhash1"
       "2023-11-14T22:13:20.000Z"].
Proof. vm_compute. split; reflexivity. Qed.

(** A disbursement to ["not-an-address"], or of ["0"] or ["-5"], is answered
    400 and reaches neither the chain nor the cache. *)
Example scenario_invalid_disbursement :
  let env := Sample.outside None in
  let key := Some "default-secure-api-key" in
  let a := JString Sample.tokenA in
  let b := JString Sample.mortalB in
  serve env POST_bless_with_tokens
        (Sample.request key a (JString "not-an-address") (JString "100")) Sample.fresh
  = (Returned (mkResponse 400 (ErrorBody "Invalid recipient address")), Sample.fresh) /\
  serve env POST_bless_with_tokens (Sample.request key a b (JString "0")) Sample.fresh
  = (Returned (mkResponse 400 (ErrorBody "Invalid amount")), Sample.fresh) /\
  serve env POST_bless_with_tokens (Sample.request key a b (JString "-5")) Sample.fresh
  = (Returned (mkResponse 400 (ErrorBody "Invalid amount")), Sample.fresh).
Proof. vm_compute. repeat split; reflexivity. Qed.

(** A disbursement of a blessed token goes through the eligibility lookup,
    the decimals lookup and the transaction, in that order. *)
Example scenario_disbursement :
  let env := Sample.outside None in
  let key := Some "default-secure-api-key" in
  let a := JString Sample.tokenA in
  let w1 := snd (serve env POST_bless_token
                   (Sample.request key a JUndefined JUndefined) Sample.fresh) in
  let req := Sample.request key a (JString Sample.mortalB) (JString "100") in
  fst (serve env POST_bless_with_tokens req w1)
  = Returned (mkResponse 200 (BlessingBody Sample.tokenA Sample.mortalB (JString "100")
                                "0xreceipt" 5)) /\
  chainCalls (trace (snd (serve env POST_bless_with_tokens req w1)))
  = (chainCalls (trace w1) ++
     [decimalsCall Sample.tokenA;
      blessWithTokensCall Sample.tokenA Sample.mortalB 100000000000000000000
                          (JString "divine123")])%list.
Proof. vm_compute. split; reflexivity. Qed.

(** ** More on the transaction log and the Offering handler *)

Lemma transactionLog_with_trace (tr : list Effect) (w : World) :
  transactionLog (with_trace tr w) = transactionLog w.
Proof. reflexivity. Qed.

Lemma appendTransaction_logged (env : Env) (tx : TxData) (w : World) :
  transactionExists (txHash tx) (transactionLog w) = true ->
  appendTransaction env tx w = (Returned tt, w).
Proof.
  intros Hex.
  destruct (appendTransaction_cases env tx w)
    as [[_ H]|[(Hnew & _)|(Hnew & _)]]; [exact H|congruence|congruence].
Qed.

Lemma transactionExists_app (h : string) (db db' : list TxData) :
  transactionExists h (db ++ db')
  = transactionExists h db || transactionExists h db'.
Proof. unfold transactionExists. apply existsb_app. Qed.

Lemma appendTransaction_frame (env : Env) (tx : TxData) (w : World) :
  divineTokensCache (snd (appendTransaction env tx w)) = divineTokensCache w /\
  divineTokensCacheFile (snd (appendTransaction env tx w)) = divineTokensCacheFile w.
Proof.
  destruct (appendTransaction_cases env tx w)
    as [[_ ->]|[(_ & msg & _ & ->)|(_ & _ & ->)]]; split; reflexivity.
Qed.

(** [appendTransaction] is idempotent: once it has returned for a record,
    appending that record again returns at once, without a write, and
    leaves the world as it is. *)
Theorem appendTransaction_idempotent (env : Env) (tx : TxData) (w w1 : World) :
  appendTransaction env tx w = (Returned tt, w1) ->
  appendTransaction env tx w1 = (Returned tt, w1).
Proof.
  intros H. apply appendTransaction_logged.
  destruct (appendTransaction_cases env tx w)
    as [[Hex E]|[(_ & msg & _ & E)|(_ & _ & E)]]; rewrite E in H.
  - injection H as <-. exact Hex.
  - discriminate H.
  - injection H as <-. unfold transactionLog at 1. simpl.
    rewrite transactionExists_app. simpl. rewrite String.eqb_refl.
    apply orb_true_r.
Qed.

Lemma appendTransaction_idempotent_witness :
  let env := Sample.outside None in
  let tx := mkTxData 1 Sample.mortalB Sample.tokenA "250" "0.00000000000000025" "0xhash2" in
  let w1 := with_trdb (Holds [tx]) (with_trace [WriteFile TRDB_PATH] Sample.fresh) in
  appendTransaction env tx w1 = (Returned tt, w1).
Proof.
  intros env tx w1.
  apply (appendTransaction_idempotent env tx Sample.fresh w1). reflexivity.
Defined.

(** A refused write of [trdb.json]. [appendTransaction] throws the message
    of the file system and the file keeps what it held. The Offering handler
    catches the exception and stops there: the event is neither logged nor
    notified to the backend, and the handler returns normally. *)
Theorem onOffering_refused_write (env : Env) (ev : Offering) (w : World)
    (formatted msg : string) :
  transactionExists (offeringHash ev) (transactionLog w) = false ->
  formatUnits env (offeredAmount ev) (decimalsOf env w (offeredToken ev))
  = Returned formatted ->
  fs_writeFileSync env (trace w ++ [Chain (decimalsCall (offeredToken ev))]) TRDB_PATH
  = Thrown msg ->
  (forall tx,
     txHash tx = offeringHash ev ->
     let w0 := with_trace (trace w ++ [Chain (decimalsCall (offeredToken ev))]) w in
     fst (appendTransaction env tx w0) = Thrown msg /\
     trdb (snd (appendTransaction env tx w0)) = trdb w) /\
  fst (onOffering env ev w) = Returned tt /\
  trdb (snd (onOffering env ev w)) = trdb w /\
  posts (trace (snd (onOffering env ev w))) = posts (trace w).
Proof.
  intros Hnew Hf Hw.
  assert (Happ : forall tx, txHash tx = offeringHash ev ->
            appendTransaction env tx
              (with_trace (trace w ++ [Chain (decimalsCall (offeredToken ev))]) w)
            = (Thrown msg,
               with_trace ((trace w ++ [Chain (decimalsCall (offeredToken ev))])
                           ++ [WriteFile TRDB_PATH]) w)).
  { intros tx Hh.
    destruct (appendTransaction_cases env tx
                (with_trace (trace w ++ [Chain (decimalsCall (offeredToken ev))]) w))
      as [[Hex _]|[(_ & msg' & Hw' & E)|(_ & Hw' & _)]].
    - rewrite transactionLog_with_trace, Hh in Hex. congruence.
    - simpl in Hw'. rewrite Hw in Hw'. injection Hw' as <-. exact E.
    - simpl in Hw'. rewrite Hw in Hw'. discriminate Hw'. }
  split.
  { intros tx Hh w0. subst w0. rewrite (Happ tx Hh). split; reflexivity. }
  rewrite onOffering_steps. cbv zeta. rewrite Hf, Happ by reflexivity. simpl.
  split; [reflexivity|]. split; [reflexivity|].
  rewrite !posts_app. simpl. rewrite !app_nil_r. reflexivity.
Qed.

Lemma onOffering_refused_write_witness :
  let env := Faulty.readOnlyDisk None in
  fst (onOffering env Sample.offering1 Sample.fresh) = Returned tt /\
  trdb (snd (onOffering env Sample.offering1 Sample.fresh)) = Absent /\
  posts (trace (snd (onOffering env Sample.offering1 Sample.fresh))) = [].
Proof.
  apply (onOffering_refused_write (Faulty.readOnlyDisk None) Sample.offering1 Sample.fresh
           "1.0" "EACCES: permission denied"); reflexivity.
Defined.

(** An event that is logged is notified once, with the fields of its record.
    When the identifier is not in the log, the amount formats and the write
    is accepted, the handler appends one record, then posts exactly one
    notification, whose sender, token, amount, formatted amount and
    identifier are those of the record; this holds whether the backend
    accepts the POST or not: a failed POST is not retried and does not undo
    the record. *)
Theorem onOffering_logs_and_notifies (env : Env) (ev : Offering) (w : World)
    (formatted : string) :
  transactionExists (offeringHash ev) (transactionLog w) = false ->
  formatUnits env (offeredAmount ev) (decimalsOf env w (offeredToken ev))
  = Returned formatted ->
  fs_writeFileSync env (trace w ++ [Chain (decimalsCall (offeredToken ev))]) TRDB_PATH
  = Returned tt ->
  let w1 := snd (onOffering env ev w) in
  exists tx n,
    transactionLog w1 = (transactionLog w ++ [tx])%list /\
    posts (trace w1) = (posts (trace w) ++ [n])%list /\
    recordOf ev tx /\
    formattedAmount tx = formatted /\
    sender n = from tx /\
    notifiedToken n = tokenAddress tx /\
    notifiedAmount n = amount tx /\
    notifiedFormattedAmount n = formattedAmount tx /\
    notifiedHash n = txHash tx /\
    fst (onOffering env ev w) = Returned tt.
Proof.
  intros Hnew Hf Hw w1. subst w1. rewrite onOffering_steps. cbv zeta. rewrite Hf.
  match goal with |- context [appendTransaction env ?t ?u] =>
    set (tx := t); set (w0 := u);
    destruct (appendTransaction_cases env tx w0)
      as [[Hex _]|[(_ & msg' & Hw' & _)|(_ & _ & ->)]]
  end.
  - change (transactionExists (offeringHash ev) (transactionLog w) = true) in Hex.
    congruence.
  - simpl in Hw'. rewrite Hw in Hw'. discriminate Hw'.
  - eexists tx, _. simpl.
    split; [reflexivity|]. split.
    { rewrite !posts_app. simpl. rewrite !app_nil_r. reflexivity. }
    repeat split.
Qed.

Lemma onOffering_logs_and_notifies_witness :
  let env := Faulty.backendDown None in
  let w1 := snd (onOffering env Sample.offering1 Sample.fresh) in
  exists tx n,
    transactionLog w1 = [tx] /\
    posts (trace w1) = [n] /\
    recordOf Sample.offering1 tx /\
    formattedAmount tx = "1.0" /\
    sender n = from tx /\
    notifiedToken n = tokenAddress tx /\
    notifiedAmount n = amount tx /\
    notifiedFormattedAmount n = formattedAmount tx /\
    notifiedHash n = txHash tx /\
    fst (onOffering env Sample.offering1 Sample.fresh) = Returned tt.
Proof.
  apply (onOffering_logs_and_notifies (Faulty.backendDown None) Sample.offering1
           Sample.fresh "1.0"); reflexivity.
Defined.

Lemma onOffering_frame (env : Env) (ev : Offering) (w : World) :
  divineTokensCache (snd (onOffering env ev w)) = divineTokensCache w /\
  divineTokensCacheFile (snd (onOffering env ev w)) = divineTokensCacheFile w.
Proof.
  rewrite onOffering_steps. cbv zeta.
  destruct (formatUnits env _ _) as [formatted|msg]; [|split; reflexivity].
  match goal with |- context [appendTransaction env ?t ?u] =>
    pose proof (appendTransaction_frame env t u) as [Hc Hf];
    destruct (appendTransaction env t u) as [[[]|msg] wa]
  end; simpl in *; split; assumption.
Qed.

(** The Offering handler never touches the eligibility cache: whatever the
    event and the outside, the cache and its file are after the handler what
    they were before. *)
Theorem onOffering_keeps_cache (env : Env) (ev : Offering) (w : World) :
  divineTokensCache (snd (onOffering env ev w)) = divineTokensCache w /\
  divineTokensCacheFile (snd (onOffering env ev w)) = divineTokensCacheFile w.
Proof. apply onOffering_frame. Qed.

(** ** More on the routes *)

(** The three ways [isTokenDivine] ends. *)
Lemma isTokenDivine_cases (env : Env) (token : string) (w : World) :
  (exists b,
     divineTokensCache w !! token = Some b /\
     isTokenDivine env token w = (Returned b, w)) \/
  (exists b,
     divineTokensCache w !! token = None /\
     zephyr_isTokenDivine env (trace w) token = Returned b /\
     isTokenDivine env token w = (Returned b, answered env token b w)) \/
  (exists msg,
     divineTokensCache w !! token = None /\
     zephyr_isTokenDivine env (trace w) token = Thrown msg /\
     isTokenDivine env token w
     = (Returned false, with_trace (trace w ++ [Chain (isTokenDivineCall token)]) w)).
Proof.
  destruct (divineTokensCache w !! token) as [b|] eqn:Hc.
  - left. exists b. split; [reflexivity|]. apply isTokenDivine_hit, Hc.
  - right. destruct (zephyr_isTokenDivine env (trace w) token) as [b|msg] eqn:Hv.
    + left. exists b. repeat split. apply isTokenDivine_miss_answered; assumption.
    + right. exists msg. repeat split.
      apply (isTokenDivine_miss_thrown env token w msg); assumption.
Qed.

Lemma answered_trdb (env : Env) (token : string) (b : bool) (w : World) :
  trdb (answered env token b w) = trdb w.
Proof. unfold answered. rewrite saved_trdb. reflexivity. Qed.

(** What a lookup leaves behind: the transaction file as it was, the cache
    as it was at every other token, the verdict at this token when it is
    [true], no [true] at this token when it is [false]. *)
Lemma isTokenDivine_after (env : Env) (token : string) (w wi : World) (b : bool) :
  isTokenDivine env token w = (Returned b, wi) ->
  trdb wi = trdb w /\
  (forall t, t <> token -> divineTokensCache wi !! t = divineTokensCache w !! t) /\
  (if b then divineTokensCache wi !! token = Some true
   else divineTokensCache wi !! token <> Some true).
Proof.
  intros H.
  destruct (isTokenDivine_cases env token w)
    as [(b' & Hc & E)|[(b' & Hc & Hv & E)|(msg & Hc & Hv & E)]];
    rewrite E in H; injection H as <- <-.
  - split; [reflexivity|]. split; [reflexivity|].
    destruct b'; rewrite Hc; [reflexivity|discriminate].
  - split; [apply answered_trdb|]. rewrite answered_cache. split.
    + intros t Hne. apply lookup_insert_ne. congruence.
    + rewrite lookup_insert_eq. destruct b'; [reflexivity|discriminate].
  - split; [reflexivity|]. split; [reflexivity|]. simpl. rewrite Hc. discriminate.
Qed.

Lemma isTokenDivine_never_throws (env : Env) (token : string) (w wi : World)
    (msg : string) :
  isTokenDivine env token w <> (Thrown msg, wi).
Proof.
  intros H. destruct (isTokenDivine_returns env token w) as [b Hb].
  rewrite H in Hb. discriminate Hb.
Qed.


Lemma handled_same (req : Request) (w : World) (resp : Response) :
  status resp = 200 \/ status resp = 400 \/ status resp = 401 \/ status resp = 500 ->
  handled req w (Returned resp, w).
Proof. intros H. split; [reflexivity|]. split; [reflexivity|]. exists resp. auto. Qed.

(** The steps the handlers share, for the proofs by cases. *)
Ltac handler_start Ha :=
  unfold try_catch, bind;
  match goal with
  | |- context [asAddress ?e (body_tokenAddress ?r)] =>
      destruct (asAddress e (body_tokenAddress r)) as [token|] eqn:Ha;
      [apply asAddress_Some in Ha as [Ha _]
      |apply handled_same; right; left; reflexivity]
  end.

Ltac handler_lookup E Hlog Hframe Hb :=
  match goal with
  | |- context [isTokenDivine ?e ?t ?w] =>
      destruct (isTokenDivine e t w) as [[b|msg] wi] eqn:E;
      [destruct (isTokenDivine_after e t w wi b E) as (Hlog & Hframe & Hb)
      |exfalso; exact (isTokenDivine_never_throws e t w wi msg E)]
  end.

Lemma blessToken_handled (env : Env) (req : Request) (w : World) :
  handled req w (blessToken env req w).
Proof.
  unfold blessToken. handler_start Ha. handler_lookup E Hlog Hframe Hb.
  assert (Hother : forall t, body_tokenAddress req <> JString t -> t <> token)
    by (intros t Hne ->; contradiction).
  destruct b; simpl.
  { split; [exact Hlog|]. split; [intros t Ht; apply Hframe, Hother, Ht|].
    eexists. split; [reflexivity|]. right. left. reflexivity. }
  unfold perform. destruct (zephyr_send env (trace wi) _) as [receipt|msg]; simpl.
  - unfold cache_set. rewrite saveDivineTokensCache_saved. simpl. unfold handled. cbn [fst snd].
    split; [rewrite saved_trdb; exact Hlog|]. split.
    + intros t Ht. rewrite saved_cache. simpl.
      rewrite lookup_insert_ne by (intros ->; exact (Hother t Ht eq_refl)).
      apply Hframe, Hother, Ht.
    + eexists. split; [reflexivity|]. left. reflexivity.
  - split; [exact Hlog|]. split; [intros t Ht; apply Hframe, Hother, Ht|].
    eexists. split; [reflexivity|]. right. right. right. reflexivity.
Qed.

Lemma unblessToken_handled (env : Env) (req : Request) (w : World) :
  handled req w (unblessToken env req w).
Proof.
  unfold unblessToken. handler_start Ha. handler_lookup E Hlog Hframe Hb.
  assert (Hother : forall t, body_tokenAddress req <> JString t -> t <> token)
    by (intros t Hne ->; contradiction).
  destruct b; simpl.
  2:{ split; [exact Hlog|]. split; [intros t Ht; apply Hframe, Hother, Ht|].
      eexists. split; [reflexivity|]. right. left. reflexivity. }
  unfold perform. destruct (zephyr_send env (trace wi) _) as [receipt|msg]; simpl.
  - unfold cache_delete. rewrite saveDivineTokensCache_saved. simpl. unfold handled. cbn [fst snd].
    split; [rewrite saved_trdb; exact Hlog|]. split.
    + intros t Ht. rewrite saved_cache. simpl.
      rewrite lookup_delete_ne by (intros ->; exact (Hother t Ht eq_refl)).
      apply Hframe, Hother, Ht.
    + eexists. split; [reflexivity|]. left. reflexivity.
  - split; [exact Hlog|]. split; [intros t Ht; apply Hframe, Hother, Ht|].
    eexists. split; [reflexivity|]. right. right. right. reflexivity.
Qed.

Lemma blessWithTokens_handled (env : Env) (req : Request) (w : World) :
  handled req w (blessWithTokens env req w).
Proof.
  unfold blessWithTokens. handler_start Ha.
  destruct (asAddress env (body_recipient req)) as [recipient|];
    [|apply handled_same; right; left; reflexivity].
  destruct (invalidAmount (body_amount req));
    [apply handled_same; right; left; reflexivity|].
  handler_lookup E Hlog Hframe Hb.
  assert (Hother : forall t, body_tokenAddress req <> JString t -> t <> token)
    by (intros t Hne ->; contradiction).
  assert (Hkeep : forall resp w',
            status resp = 200 \/ status resp = 400 \/ status resp = 401 \/ status resp = 500 ->
            trdb w' = trdb wi ->
            divineTokensCache w' = divineTokensCache wi ->
            handled req w (Returned resp, w')).
  { intros resp w' Hs Ht Hc. split; [simpl; congruence|].
    split; [intros t Hne; simpl; rewrite Hc; apply Hframe, Hother, Hne|].
    exists resp. auto. }
  destruct b; simpl.
  2:{ apply Hkeep; [right; left|..]; reflexivity. }
  rewrite getTokenDecimals_returns. unfold lift.
  destruct (parseUnits env (body_amount req) _) as [amountInWei|msg]; simpl.
  2:{ apply Hkeep; [right; right; right|..]; reflexivity. }
  unfold perform. simpl.
  destruct (zephyr_send env _ _) as [receipt|msg]; simpl; apply Hkeep;
    try reflexivity; [left|right; right; right]; reflexivity.
Qed.

Lemma serve_handled (env : Env) (r : Route) (req : Request) (w : World) :
  handled req w (serve env r req w).
Proof.
  assert (H401 : handled req w (Returned unauthorized, w)).
  { apply handled_same. right. right. left. reflexivity. }
  assert (Hv : forall next,
            handled req w (next w) -> handled req w (validateApiKey env req next w)).
  { intros next Hn. unfold validateApiKey.
    destruct (x_api_key req) as [k|]; [|exact H401].
    destruct (_ || _); [exact H401|exact Hn]. }
  destruct r; simpl.
  - apply Hv, blessWithTokens_handled.
  - apply Hv, blessToken_handled.
  - apply Hv, unblessToken_handled.
  - apply Hv, handled_same. left. reflexivity.
  - apply handled_same. left. reflexivity.
Qed.

(** No exception escapes a route. Whatever the request, and whatever the
    chain, the file system and [ethers] return or throw, a route whose
    awaited calls have settled ends in a response, never in an exception,
    and the status of the response is 200, 400, 401 or 500. *)
Theorem serve_no_exception_escapes (env : Env) (r : Route) (req : Request) (w : World) :
  exists resp,
    fst (serve env r req w) = Returned resp /\
    (status resp = 200 \/ status resp = 400 \/ status resp = 401 \/ status resp = 500).
Proof. exact (proj2 (proj2 (serve_handled env r req w))). Qed.

(** No route touches the transaction log: [trdb.json] is after any request
    what it was before. *)
Theorem serve_keeps_transaction_log (env : Env) (r : Route) (req : Request) (w : World) :
  trdb (snd (serve env r req w)) = trdb w.
Proof. exact (proj1 (serve_handled env r req w)). Qed.

(** A request changes the cache at the token it names and nowhere else: the
    entry of every other token is after the request what it was before. *)
Theorem serve_cache_frame (env : Env) (r : Route) (req : Request) (w : World)
    (t : string) :
  body_tokenAddress req <> JString t ->
  divineTokensCache (snd (serve env r req w)) !! t = divineTokensCache w !! t.
Proof. exact (proj1 (proj2 (serve_handled env r req w)) t). Qed.

Lemma serve_cache_frame_witness :
  divineTokensCache
    (snd (serve (Sample.outside None) POST_unbless_token
            (Sample.request (Some "default-secure-api-key") (JString Sample.mortalB)
                            JUndefined JUndefined)
            Faulty.blessed)) !! Sample.tokenA
  = Some true.
Proof.
  apply (serve_cache_frame (Sample.outside None) POST_unbless_token
           (Sample.request (Some "default-secure-api-key") (JString Sample.mortalB)
                           JUndefined JUndefined)
           Faulty.blessed Sample.tokenA).
  discriminate.
Defined.

(** No configuration accepts an empty key. Whether [API_KEY] is set, unset
    or set to the empty string, a request whose [x-api-key] header is the
    empty string is answered 401 on every authenticated route, and a
    request that presents [default-secure-api-key] passes when [API_KEY] is
    set to the empty string, as it does when it is unset. *)
Theorem empty_key_never_accepted (env : Env) (r : Route) (req : Request) (w : World) :
  authenticated r = true ->
  (x_api_key req = Some "" ->
   serve env r req w
   = (Returned (mkResponse 401 (ErrorBody "Unauthorized: Invalid API key")), w)) /\
  (env_API_KEY env = Some "" ->
   x_api_key req = Some "default-secure-api-key" ->
   serve env r req w = handler env r req w).
Proof.
  intros Hauth. split.
  - intros Hk.
    assert (Hne : x_api_key req <> Some (API_KEY env)).
    { rewrite Hk. intros [= E]. pose proof (API_KEY_not_empty env) as Hn.
      rewrite <- E in Hn. discriminate Hn. }
    destruct r; try discriminate Hauth; simpl;
      rewrite (validateApiKey_unauthorized env req _ Hne); reflexivity.
  - intros Hcfg Hk.
    assert (H : x_api_key req = Some (API_KEY env)).
    { unfold API_KEY. rewrite Hcfg. exact Hk. }
    destruct r; try discriminate Hauth; simpl;
      rewrite (validateApiKey_next env req _ H); reflexivity.
Qed.

Lemma empty_key_never_accepted_witness :
  serve (Sample.outside (Some "")) GET_divine_tokens
        (Sample.request (Some "") JUndefined JUndefined JUndefined) Sample.fresh
  = (Returned (mkResponse 401 (ErrorBody "Unauthorized: Invalid API key")), Sample.fresh)
  /\
  serve (Sample.outside (Some "")) GET_divine_tokens
        (Sample.request (Some "default-secure-api-key") JUndefined JUndefined JUndefined)
        Sample.fresh
  = handler (Sample.outside (Some "")) GET_divine_tokens
        (Sample.request (Some "default-secure-api-key") JUndefined JUndefined JUndefined)
        Sample.fresh.
Proof.
  split.
  - apply (proj1 (empty_key_never_accepted (Sample.outside (Some "")) GET_divine_tokens
                    (Sample.request (Some "") JUndefined JUndefined JUndefined)
                    Sample.fresh eq_refl)).
    reflexivity.
  - apply (proj2 (empty_key_never_accepted (Sample.outside (Some "")) GET_divine_tokens
                    (Sample.request (Some "default-secure-api-key") JUndefined JUndefined
                                    JUndefined)
                    Sample.fresh eq_refl)); reflexivity.
Defined.

(** ** The cache and its file *)


Lemma saved_persisted (env : Env) (w : World) :
  writesSucceed env -> persisted (saved env w).
Proof.
  intros Hw. unfold persisted, saved. rewrite Hw. reflexivity.
Qed.

Lemma persisted_with_trace (tr : list Effect) (w : World) :
  persisted w -> persisted (with_trace tr w).
Proof. intros H. exact H. Qed.

Lemma isTokenDivine_persisted (env : Env) (token : string) (w wi : World) (b : bool) :
  writesSucceed env ->
  persisted w ->
  isTokenDivine env token w = (Returned b, wi) ->
  persisted wi.
Proof.
  intros Hw Hp H.
  destruct (isTokenDivine_cases env token w)
    as [(b' & Hc & E)|[(b' & Hc & Hv & E)|(msg & Hc & Hv & E)]];
    rewrite E in H; injection H as <- <-.
  - exact Hp.
  - apply saved_persisted, Hw.
  - exact Hp.
Qed.

Lemma handlers_persisted (env : Env) (req : Request) (w : World) :
  writesSucceed env ->
  persisted w ->
  persisted (snd (blessWithTokens env req w)) /\
  persisted (snd (blessToken env req w)) /\
  persisted (snd (unblessToken env req w)).
Proof.
  intros Hw Hp. split; [|split].
  - unfold blessWithTokens, try_catch, bind.
    destruct (asAddress env (body_tokenAddress req)) as [token|]; [|exact Hp].
    destruct (asAddress env (body_recipient req)) as [recipient|]; [|exact Hp].
    destruct (invalidAmount (body_amount req)); [exact Hp|].
    destruct (isTokenDivine env token w) as [[b|msg] wi] eqn:E;
      [|exfalso; exact (isTokenDivine_never_throws env token w wi msg E)].
    pose proof (isTokenDivine_persisted env token w wi b Hw Hp E) as Hpi.
    destruct b; simpl; [|exact Hpi].
    rewrite getTokenDecimals_returns. unfold lift.
    destruct (parseUnits env (body_amount req) _) as [amountInWei|msg]; simpl;
      [|exact Hpi].
    unfold perform. simpl. destruct (zephyr_send env _ _); exact Hpi.
  - unfold blessToken, try_catch, bind.
    destruct (asAddress env (body_tokenAddress req)) as [token|]; [|exact Hp].
    destruct (isTokenDivine env token w) as [[b|msg] wi] eqn:E;
      [|exfalso; exact (isTokenDivine_never_throws env token w wi msg E)].
    pose proof (isTokenDivine_persisted env token w wi b Hw Hp E) as Hpi.
    destruct b; simpl; [exact Hpi|].
    unfold perform. destruct (zephyr_send env (trace wi) _); simpl; [|exact Hpi].
    unfold cache_set. rewrite saveDivineTokensCache_saved. simpl.
    apply saved_persisted, Hw.
  - unfold unblessToken, try_catch, bind.
    destruct (asAddress env (body_tokenAddress req)) as [token|]; [|exact Hp].
    destruct (isTokenDivine env token w) as [[b|msg] wi] eqn:E;
      [|exfalso; exact (isTokenDivine_never_throws env token w wi msg E)].
    pose proof (isTokenDivine_persisted env token w wi b Hw Hp E) as Hpi.
    destruct b; simpl; [|exact Hpi].
    unfold perform. destruct (zephyr_send env (trace wi) _); simpl; [|exact Hpi].
    unfold cache_delete. rewrite saveDivineTokensCache_saved. simpl.
    apply saved_persisted, Hw.
Qed.

(** With a disk that accepts the writes, the cache file follows the cache.
    If a restart would load the cache of the process before a request or an
    Offering event, it would after it too: [loadDivineTokensCache] then
    returns the cache in memory, and [startup] leaves the world as it is. A
    process that starts from [loadDivineTokensCache] is in that state. *)
Theorem cache_file_follows_cache (env : Env) (w : World) :
  writesSucceed env ->
  persisted (startup w) /\
  (persisted w ->
   (forall r req,
      persisted (snd (serve env r req w)) /\
      startup (snd (serve env r req w)) = snd (serve env r req w)) /\
   (forall ev, persisted (snd (onOffering env ev w)))).
Proof.
  intros Hw. split; [reflexivity|]. intros Hp. split.
  - intros r req.
    assert (H : persisted (snd (serve env r req w))).
    { destruct (handlers_persisted env req w Hw Hp) as (H1 & H2 & H3).
      assert (Hv : forall next, persisted (snd (next w)) ->
                persisted (snd (validateApiKey env req next w))).
      { intros next Hn. unfold validateApiKey.
        destruct (x_api_key req) as [k|]; [|exact Hp].
        destruct (_ || _); [exact Hp|exact Hn]. }
      destruct r; simpl; try apply Hv; assumption. }
    split; [exact H|].
    unfold startup. rewrite H. destruct (snd (serve env r req w)). reflexivity.
  - intros ev. unfold persisted, loadDivineTokensCache.
    destruct (onOffering_frame env ev w) as [-> ->]. exact Hp.
Qed.

Lemma cache_file_follows_cache_witness :
  let env := Sample.outside None in
  let req :=
    Sample.request (Some "default-secure-api-key") (JString Sample.tokenA)
                   JUndefined JUndefined in
  let w1 := snd (serve env POST_bless_token req (startup Sample.fresh)) in
  persisted w1 /\ startup w1 = w1.
Proof.
  intros env req w1.
  assert (Hw : writesSucceed env) by (intros tr path; reflexivity).
  destruct (cache_file_follows_cache env (startup Sample.fresh) Hw) as [Hp H].
  exact (proj1 (H Hp) POST_bless_token req).
Defined.

(** ** More on [/bless-token] and [/unbless-token] *)

Lemma blessToken_rejects_eligible_witness :
  let env := Sample.outside None in
  let req := Sample.request None (JString Sample.tokenA) JUndefined JUndefined in
  blessToken env req Faulty.blessed
  = (Returned (mkResponse 400 (ErrorBody "Token already blessed")), Faulty.blessed).
Proof.
  apply (blessToken_rejects_eligible (Sample.outside None)
           (Sample.request None (JString Sample.tokenA) JUndefined JUndefined)
           Faulty.blessed Sample.tokenA); reflexivity.
Defined.

(** A [blessToken] transaction that the chain rejects. The route answers 500
    with the message of the chain as details; the cache is what the lookup
    left, so the token is not cached as eligible and [GET /divine-tokens]
    does not list it. *)
Theorem blessToken_failed_transaction (env : Env) (req : Request) (w wi : World)
    (token msg : string) :
  asAddress env (body_tokenAddress req) = Some token ->
  isTokenDivine env token w = (Returned false, wi) ->
  zephyr_send env (trace wi) (blessTokenCall token) = Thrown msg ->
  let w1 := snd (blessToken env req w) in
  fst (blessToken env req w)
  = Returned (mkResponse 500 (FailureBody "Failed to bless token" msg)) /\
  divineTokensCache w1 = divineTokensCache wi /\
  divineTokensCache w1 !! token <> Some true /\
  (token ∉ divineTokensOf (divineTokensCache w1)).
Proof.
  intros Ha E Hs w1. subst w1. unfold blessToken, try_catch, bind.
  rewrite Ha, E. unfold perform. rewrite Hs. simpl.
  destruct (isTokenDivine_after env token w wi false E) as (_ & _ & Hb).
  repeat split; try reflexivity; [exact Hb|].
  rewrite elem_of_divineTokensOf. exact Hb.
Qed.

Lemma blessToken_failed_transaction_witness :
  let env := Faulty.nodeRejects None in
  let req := Sample.request None (JString Sample.tokenA) JUndefined JUndefined in
  fst (blessToken env req Sample.fresh)
  = Returned (mkResponse 500 (FailureBody "Failed to bless token" "execution reverted")) /\
  divineTokensCache (snd (blessToken env req Sample.fresh)) !! Sample.tokenA <> Some true.
Proof.
  intros env req.
  destruct (blessToken_failed_transaction env req Sample.fresh
              (snd (isTokenDivine env Sample.tokenA Sample.fresh))
              Sample.tokenA "execution reverted" eq_refl eq_refl eq_refl)
    as (H1 & _ & H2 & _).
  split; [exact H1|exact H2].
Defined.

(** [POST /unbless-token], on a 200, has removed the token from the cache:
    [GET /divine-tokens] no longer lists it, and the next [isTokenDivine]
    for it makes the view call again. *)
Theorem unblessToken_clears_cache (env : Env) (req : Request) (w w1 : World)
    (resp : Response) :
  unblessToken env req w = (Returned resp, w1) ->
  status resp = 200 ->
  exists token,
    body_tokenAddress req = JString token /\
    fst (isTokenDivine env token w) = Returned true /\
    divineTokensCache w1 !! token = None /\
    (token ∉ divineTokensOf (divineTokensCache w1)) /\
    chainCalls (trace (snd (isTokenDivine env token w1)))
    = (chainCalls (trace w1) ++ [isTokenDivineCall token])%list.
Proof.
  unfold unblessToken, try_catch, bind. intros H Hok.
  destruct (asAddress env (body_tokenAddress req)) as [token|] eqn:Ha.
  2:{ not_200 H Hok. }
  destruct (isTokenDivine env token w) as [[b|msg] wi] eqn:E.
  2:{ not_200 H Hok. }
  destruct b; cbn [negb] in H.
  2:{ not_200 H Hok. }
  unfold perform in H.
  destruct (zephyr_send env (trace wi) (unBlessTokenCall token)) as [receipt|msg].
  2:{ not_200 H Hok. }
  unfold cache_delete in H. rewrite saveDivineTokensCache_saved in H.
  injection H as <- <-.
  exists token. split; [apply (asAddress_Some env _ _ Ha)|].
  split; [try rewrite E; reflexivity|].
  match goal with |- context [saved env ?u] => set (ws := saved env u) in * end.
  assert (Hc : divineTokensCache ws !! token = None).
  { subst ws. rewrite saved_cache. apply lookup_delete_eq. }
  split; [exact Hc|]. split.
  - rewrite elem_of_divineTokensOf, Hc. discriminate.
  - apply isTokenDivine_miss_chainCalls, Hc.
Qed.

Lemma unblessToken_clears_cache_witness :
  let env := Sample.outside None in
  let req := Sample.request None (JString Sample.tokenA) JUndefined JUndefined in
  let w1 := snd (unblessToken env req Faulty.blessed) in
  exists token,
    JString Sample.tokenA = JString token /\
    fst (isTokenDivine env token Faulty.blessed) = Returned true /\
    divineTokensCache w1 !! token = None /\
    (token ∉ divineTokensOf (divineTokensCache w1)) /\
    chainCalls (trace (snd (isTokenDivine env token w1)))
    = (chainCalls (trace w1) ++ [isTokenDivineCall token])%list.
Proof.
  intros env req w1.
  apply (unblessToken_clears_cache env req Faulty.blessed w1
           (mkResponse 200 (TokenBody Sample.tokenA "0xreceipt" 0))).
  - vm_compute. reflexivity.
  - reflexivity.
Defined.

(** [POST /unbless-token] for a token that [isTokenDivine] reports not
    eligible is answered 400 and sends no transaction: the world is the one
    the lookup left. This is the answer, too, for a token that is not cached
    when the view call fails, whatever the allow-list of the contract says. *)
Theorem unblessToken_rejects_not_divine (env : Env) (req : Request) (w : World)
    (token : string) :
  asAddress env (body_tokenAddress req) = Some token ->
  fst (isTokenDivine env token w) = Returned false ->
  unblessToken env req w
  = (Returned (mkResponse 400 (ErrorBody "Token not blessed")),
     snd (isTokenDivine env token w)).
Proof.
  intros Ha Hd. unfold unblessToken, try_catch, bind. rewrite Ha.
  destruct (isTokenDivine env token w) as [o wi]. simpl in Hd. subst o. reflexivity.
Qed.

Lemma unblessToken_rejects_not_divine_witness :
  let env := Sample.unreachable None in
  let req := Sample.request None (JString Sample.tokenA) JUndefined JUndefined in
  unblessToken env req Sample.fresh
  = (Returned (mkResponse 400 (ErrorBody "Token not blessed")),
     snd (isTokenDivine env Sample.tokenA Sample.fresh)).
Proof.
  apply (unblessToken_rejects_not_divine (Sample.unreachable None)
           (Sample.request None (JString Sample.tokenA) JUndefined JUndefined)
           Sample.fresh Sample.tokenA); reflexivity.
Defined.

(** ** More on [/bless-with-tokens] *)







(** What a lookup adds to the trace: nothing, or the view call and, when
    the node answers, the write of the cache file. *)
Lemma isTokenDivine_added (env : Env) (token : string) (w wi : World) (b : bool) :
  isTokenDivine env token w = (Returned b, wi) ->
  exists views,
    trace wi = (trace w ++ views)%list /\
    forall c, c ∈ chainCalls views -> c = isTokenDivineCall token.
Proof.
  intros H.
  destruct (isTokenDivine_cases env token w)
    as [(b' & Hc & E)|[(b' & Hc & Hv & E)|(msg & Hc & Hv & E)]];
    rewrite E in H; injection H as <- <-.
  - exists []. split; [rewrite app_nil_r; reflexivity|]. intros c Hin. inversion Hin.
  - eexists. split; [apply answered_trace|].
    intros c Hin. simpl in Hin. apply list_elem_of_singleton in Hin. exact Hin.
  - eexists. split; [reflexivity|].
    intros c Hin. simpl in Hin. apply list_elem_of_singleton in Hin. exact Hin.
Qed.

(** [POST /bless-with-tokens] never disburses unchecked. Of the calls that
    the handler adds to the trace, whatever the trace held before, a
    [blessWithTokens] transaction has the token and the recipient of the
    request, which are addresses; the amount of the request passed the
    amount check; [isTokenDivine] returned [true] for the token; the amount
    sent is what [parseUnits] returned for the decimals resolved after the
    lookup; the reference is that of the request; and the transaction is
    the last call added, after what the lookup added and the [decimals()]
    call. *)
Theorem blessWithTokens_sends_only_checked (env : Env) (req : Request) (w : World) :
  exists added,
    trace (snd (blessWithTokens env req w)) = (trace w ++ added)%list /\
    forall t r a ref,
      blessWithTokensCall t r a ref ∈ chainCalls added ->
      body_tokenAddress req = JString t /\ isAddress env t = true /\
      body_recipient req = JString r /\ isAddress env r = true /\
      invalidAmount (body_amount req) = false /\
      fst (isTokenDivine env t w) = Returned true /\
      parseUnits env (body_amount req)
        (decimalsOf env (snd (isTokenDivine env t w)) t) = Returned a /\
      ref = body_reference req /\
      exists views,
        trace (snd (isTokenDivine env t w)) = (trace w ++ views)%list /\
        added = (views ++ [Chain (decimalsCall t);
                           Chain (blessWithTokensCall t r a ref)])%list.
Proof.
  assert (Hnone : exists added,
            trace w = (trace w ++ added)%list /\
            forall t r a ref,
              blessWithTokensCall t r a ref ∈ chainCalls added -> False).
  { exists []. split; [rewrite app_nil_r; reflexivity|].
    intros t r a ref Hin. inversion Hin. }
  unfold blessWithTokens, try_catch, bind.
  destruct (asAddress env (body_tokenAddress req)) as [token|] eqn:Ha.
  2:{ destruct Hnone as (added & Htr & Hno). exists added. split; [exact Htr|].
      intros t r a ref Hin. destruct (Hno t r a ref Hin). }
  destruct (asAddress env (body_recipient req)) as [recipient|] eqn:Hr.
  2:{ destruct Hnone as (added & Htr & Hno). exists added. split; [exact Htr|].
      intros t r a ref Hin. destruct (Hno t r a ref Hin). }
  destruct (invalidAmount (body_amount req)) eqn:Hamt.
  { destruct Hnone as (added & Htr & Hno). exists added. split; [exact Htr|].
    intros t r a ref Hin. destruct (Hno t r a ref Hin). }
  clear Hnone.
  destruct (isTokenDivine env token w) as [[b|msg] wi] eqn:E;
    [|exfalso; exact (isTokenDivine_never_throws env token w wi msg E)].
  destruct (isTokenDivine_added env token w wi b E) as (views & Hviews & Hview).
  assert (Hold : forall t r a ref, blessWithTokensCall t r a ref ∈ chainCalls views -> False).
  { intros t r a ref Hin. discriminate (Hview _ Hin). }
  destruct b; simpl.
  2:{ exists views. split; [exact Hviews|].
      intros t r a ref Hin. destruct (Hold t r a ref Hin). }
  rewrite getTokenDecimals_returns. unfold lift.
  destruct (parseUnits env (body_amount req) (decimalsOf env wi token))
    as [amountInWei|msg] eqn:Hp; simpl.
  2:{ exists (views ++ [Chain (decimalsCall token)])%list.
      split; [rewrite Hviews, <- app_assoc; reflexivity|].
      intros t r a ref Hin. rewrite chainCalls_app in Hin.
      apply elem_of_app in Hin as [Hin|Hin]; [destruct (Hold t r a ref Hin)|].
      simpl in Hin. apply list_elem_of_singleton in Hin. discriminate Hin. }
  exists (views ++ [Chain (decimalsCall token);
                    Chain (blessWithTokensCall token recipient amountInWei
                             (body_reference req))])%list.
  split.
  { unfold perform. simpl. destruct (zephyr_send env _ _) as [receipt|msg]; simpl;
      rewrite Hviews, <- !app_assoc; reflexivity. }
  intros t r a ref Hin. rewrite chainCalls_app in Hin.
  apply elem_of_app in Hin as [Hin|Hin]; [destruct (Hold t r a ref Hin)|].
  simpl in Hin. apply elem_of_cons in Hin as [Hin|Hin]; [discriminate Hin|].
  apply list_elem_of_singleton in Hin. injection Hin as -> -> -> ->.
  rewrite E. simpl.
  destruct (asAddress_Some env _ _ Ha) as [? ?].
  destruct (asAddress_Some env _ _ Hr) as [? ?].
  do 8 (split; [assumption || reflexivity|]).
  exists views. split; [exact Hviews|reflexivity].
Qed.

(** A disbursement repeated: the trace holds the transaction of the first
    request when the second comes, and the second adds its own. *)
Lemma blessWithTokens_sends_only_checked_witness :
  let env := Sample.outside None in
  let req :=
    Sample.request None (JString Sample.tokenA) (JString Sample.mortalB) (JString "100") in
  let call :=
    blessWithTokensCall Sample.tokenA Sample.mortalB 100000000000000000000
                        (JString "divine123") in
  let w1 := snd (blessWithTokens env req Faulty.blessed) in
  exists added,
    call ∈ chainCalls (trace w1) /\
    trace (snd (blessWithTokens env req w1)) = (trace w1 ++ added)%list /\
    added = [Chain (decimalsCall Sample.tokenA); Chain call] /\
    fst (isTokenDivine env Sample.tokenA w1) = Returned true /\
    parseUnits env (JString "100") 18 = Returned 100000000000000000000.
Proof.
  intros env req call w1.
  destruct (blessWithTokens_sends_only_checked env req w1) as (added & Htr & H).
  exists added.
  assert (Hadded : added = [Chain (decimalsCall Sample.tokenA); Chain call]).
  { apply (app_inv_head (trace w1)). rewrite <- Htr. vm_compute. reflexivity. }
  split; [apply list_elem_of_In; vm_compute; right; left; reflexivity|].
  split; [exact Htr|]. split; [exact Hadded|].
  destruct (H Sample.tokenA Sample.mortalB 100000000000000000000 (JString "divine123"))
    as (_ & _ & _ & _ & _ & H1 & H2 & _).
  - rewrite Hadded. apply list_elem_of_In. vm_compute. right. left. reflexivity.
  - split; [exact H1|exact H2].
Defined.

(** A disbursement of a token that [isTokenDivine] reports not eligible is
    answered 400 once the lookup is done: no decimals lookup, no
    transaction. The service fails closed here: a token that is not cached
    is refused when the view call fails. *)
Theorem blessWithTokens_not_blessed (env : Env) (req : Request) (w : World)
    (token recipient : string) :
  asAddress env (body_tokenAddress req) = Some token ->
  asAddress env (body_recipient req) = Some recipient ->
  invalidAmount (body_amount req) = false ->
  fst (isTokenDivine env token w) = Returned false ->
  blessWithTokens env req w
  = (Returned (mkResponse 400 (ErrorBody "Token not blessed by Olympus")),
     snd (isTokenDivine env token w)).
Proof.
  intros Ha Hr Hamt Hd. unfold blessWithTokens, try_catch, bind.
  rewrite Ha, Hr, Hamt.
  destruct (isTokenDivine env token w) as [o wi]. simpl in Hd. subst o. reflexivity.
Qed.

Lemma blessWithTokens_not_blessed_witness :
  let env := Sample.unreachable None in
  let req :=
    Sample.request None (JString Sample.tokenA) (JString Sample.mortalB) (JString "100") in
  blessWithTokens env req Sample.fresh
  = (Returned (mkResponse 400 (ErrorBody "Token not blessed by Olympus")),
     snd (isTokenDivine env Sample.tokenA Sample.fresh)).
Proof.
  apply (blessWithTokens_not_blessed (Sample.unreachable None)
           (Sample.request None (JString Sample.tokenA) (JString Sample.mortalB)
                           (JString "100"))
           Sample.fresh Sample.tokenA Sample.mortalB); reflexivity.
Defined.

(** A disbursement that passes the checks and the eligibility lookup sends
    one transaction, with the amount that [parseUnits] gives for the
    decimals of the token, and with 18 decimals when [decimals()] fails: the
    failed lookup does not fail the request. On the receipt the route
    answers 200 with the token, the recipient and the amount of the request
    and the hash and block number of the receipt. *)
Theorem blessWithTokens_sends_parsed_amount (env : Env) (req : Request) (w wi : World)
    (token recipient : string) (a : Z) (receipt : Receipt) :
  asAddress env (body_tokenAddress req) = Some token ->
  asAddress env (body_recipient req) = Some recipient ->
  invalidAmount (body_amount req) = false ->
  isTokenDivine env token w = (Returned true, wi) ->
  parseUnits env (body_amount req)
    match token_decimals env (trace wi) token with
    | Returned d => d
    | Thrown _ => 18
    end = Returned a ->
  zephyr_send env (trace wi ++ [Chain (decimalsCall token)])
    (blessWithTokensCall token recipient a (body_reference req)) = Returned receipt ->
  blessWithTokens env req w
  = (Returned (mkResponse 200
                 (BlessingBody token recipient (body_amount req)
                               (hash receipt) (blockNumber receipt))),
     with_trace
       ((trace wi ++ [Chain (decimalsCall token)]) ++
        [Chain (blessWithTokensCall token recipient a (body_reference req))]) wi).
Proof.
  intros Ha Hr Hamt E Hp Hs. unfold blessWithTokens, try_catch, bind.
  rewrite Ha, Hr, Hamt, E. simpl.
  rewrite getTokenDecimals_returns. unfold lift, decimalsOf. rewrite Hp.
  unfold perform. simpl. rewrite Hs. reflexivity.
Qed.

Lemma blessWithTokens_sends_parsed_amount_witness :
  let env := Faulty.noDecimals None in
  let req :=
    Sample.request None (JString Sample.tokenA) (JString Sample.mortalB) (JString "100") in
  blessWithTokens env req Faulty.blessed
  = (Returned (mkResponse 200
                 (BlessingBody Sample.tokenA Sample.mortalB (JString "100")
                               "0xreceipt" 1)),
     with_trace
       [Chain (decimalsCall Sample.tokenA);
        Chain (blessWithTokensCall Sample.tokenA Sample.mortalB 100000000000000000000
                 (JString "divine123"))] Faulty.blessed).
Proof.
  apply (blessWithTokens_sends_parsed_amount (Faulty.noDecimals None)
           (Sample.request None (JString Sample.tokenA) (JString Sample.mortalB)
                           (JString "100"))
           Faulty.blessed Faulty.blessed Sample.tokenA Sample.mortalB
           100000000000000000000 (mkReceipt "0xreceipt" 1)); reflexivity.
Defined.

(** A disbursement that fails after the checks is answered 500 with the
    message of the failure as details. When [parseUnits] rejects the amount
    (an amount that converts to a positive number need not be a decimal
    literal), no transaction is sent; when the chain rejects the
    transaction, its message is the details. *)
Theorem blessWithTokens_failure_is_500 (env : Env) (req : Request) (w wi : World)
    (token recipient msg : string) :
  asAddress env (body_tokenAddress req) = Some token ->
  asAddress env (body_recipient req) = Some recipient ->
  invalidAmount (body_amount req) = false ->
  isTokenDivine env token w = (Returned true, wi) ->
  (parseUnits env (body_amount req) (decimalsOf env wi token) = Thrown msg ->
   blessWithTokens env req w
   = (Returned (mkResponse 500 (FailureBody "Failed to bestow blessing" msg)),
      with_trace (trace wi ++ [Chain (decimalsCall token)]) wi)) /\
  (forall a,
     parseUnits env (body_amount req) (decimalsOf env wi token) = Returned a ->
     zephyr_send env (trace wi ++ [Chain (decimalsCall token)])
       (blessWithTokensCall token recipient a (body_reference req)) = Thrown msg ->
     fst (blessWithTokens env req w)
     = Returned (mkResponse 500 (FailureBody "Failed to bestow blessing" msg))).
Proof.
  intros Ha Hr Hamt E. split.
  - intros Hp. unfold blessWithTokens, try_catch, bind.
    rewrite Ha, Hr, Hamt, E. simpl.
    rewrite getTokenDecimals_returns. unfold lift. rewrite Hp. reflexivity.
  - intros a Hp Hs. unfold blessWithTokens, try_catch, bind.
    rewrite Ha, Hr, Hamt, E. simpl.
    rewrite getTokenDecimals_returns. unfold lift. rewrite Hp.
    unfold perform. simpl. rewrite Hs. reflexivity.
Qed.

Lemma blessWithTokens_failure_is_500_witness :
  let env := Sample.outside None in
  let req :=
    Sample.request None (JString Sample.tokenA) (JString Sample.mortalB) (JString "1e3") in
  blessWithTokens env req Faulty.blessed
  = (Returned (mkResponse 500 (FailureBody "Failed to bestow blessing"
                                 "invalid FixedNumber string value")),
     with_trace [Chain (decimalsCall Sample.tokenA)] Faulty.blessed).
Proof.
  apply (proj1 (blessWithTokens_failure_is_500 (Sample.outside None)
                  (Sample.request None (JString Sample.tokenA) (JString Sample.mortalB)
                                  (JString "1e3"))
                  Faulty.blessed Faulty.blessed Sample.tokenA Sample.mortalB
                  "invalid FixedNumber string value" eq_refl eq_refl eq_refl eq_refl)).
  reflexivity.
Defined.

(** ** More on the second copy *)


Lemma writes_app (tr tr' : list Effect) :
  writes (tr ++ tr') = (writes tr ++ writes tr')%list.
Proof. apply omap_app. Qed.

Lemma wroteNothing_refl (w : World) : wroteNothing w w.
Proof. repeat split. Qed.

Lemma wroteNothing_chain (w w1 : World) (c : ChainCall) :
  wroteNothing w w1 -> wroteNothing w (with_trace (trace w1 ++ [Chain c]) w1).
Proof.
  intros (H1 & H2 & H3). repeat split; [exact H1|exact H2|].
  simpl. rewrite writes_app, H3. simpl. apply app_nil_r.
Qed.

Lemma wroteNothing_post (w w1 : World) (n : Notification) :
  wroteNothing w w1 -> wroteNothing w (with_trace (trace w1 ++ [Post n]) w1).
Proof.
  intros (H1 & H2 & H3). repeat split; [exact H1|exact H2|].
  simpl. rewrite writes_app, H3. simpl. apply app_nil_r.
Qed.

Lemma wroteNothing_cache (w w1 : World) (c : gmap string bool) :
  wroteNothing w w1 -> wroteNothing w (with_cache c w1).
Proof. intros H. exact H. Qed.

Lemma Variant2_isTokenDivine_wroteNothing (env : Env) (token : string) (w : World) :
  wroteNothing w (snd (Variant2.isTokenDivine env token w)) /\
  exists b, fst (Variant2.isTokenDivine env token w) = Returned b.
Proof.
  unfold Variant2.isTokenDivine.
  destruct (divineTokensCache w !! token) as [b|].
  - split; [apply wroteNothing_refl|]. exists b. reflexivity.
  - unfold try_catch, bind, perform, cache_set.
    destruct (zephyr_isTokenDivine env (trace w) token) as [b|msg]; simpl.
    + split; [|exists b; reflexivity].
      apply wroteNothing_cache, wroteNothing_chain, wroteNothing_refl.
    + split; [|exists false; reflexivity].
      apply wroteNothing_chain, wroteNothing_refl.
Qed.

Lemma getTokenDecimals_wroteNothing (env : Env) (token : string) (w w0 : World) :
  wroteNothing w w0 -> wroteNothing w (snd (getTokenDecimals env token w0)).
Proof. intros H. rewrite getTokenDecimals_returns. apply wroteNothing_chain, H. Qed.

(** The second copy keeps nothing on disk. Its lookup, its three routes that
    reach the chain and its Offering handler leave both files as they were
    and add no write to the trace: verdicts live in memory only, and
    deposits are not logged. *)
Theorem Variant2_writes_no_file (env : Env) (req : Request) (ev : Offering)
    (token : string) (w : World) :
  wroteNothing w (snd (Variant2.isTokenDivine env token w)) /\
  wroteNothing w (snd (Variant2.blessToken env req w)) /\
  wroteNothing w (snd (Variant2.unblessToken env req w)) /\
  wroteNothing w (snd (Variant2.blessWithTokens env req w)) /\
  wroteNothing w (snd (Variant2.onOffering env ev w)).
Proof.
  split; [apply Variant2_isTokenDivine_wroteNothing|].
  split; [|split; [|split]].
  - unfold Variant2.blessToken, try_catch, bind.
    destruct (asAddress env (body_tokenAddress req)) as [t|]; [|apply wroteNothing_refl].
    destruct (Variant2_isTokenDivine_wroteNothing env t w) as [Hn [b Hb]].
    destruct (Variant2.isTokenDivine env t w) as [o wi]. simpl in *. subst o.
    destruct b; simpl; [exact Hn|].
    unfold perform, cache_delete. destruct (zephyr_send env _ _); simpl.
    + apply wroteNothing_cache, wroteNothing_chain, Hn.
    + apply wroteNothing_chain, Hn.
  - unfold Variant2.unblessToken, try_catch, bind.
    destruct (asAddress env (body_tokenAddress req)) as [t|]; [|apply wroteNothing_refl].
    destruct (Variant2_isTokenDivine_wroteNothing env t w) as [Hn [b Hb]].
    destruct (Variant2.isTokenDivine env t w) as [o wi]. simpl in *. subst o.
    destruct b; simpl; [|exact Hn].
    unfold perform, cache_delete. destruct (zephyr_send env _ _); simpl.
    + apply wroteNothing_cache, wroteNothing_chain, Hn.
    + apply wroteNothing_chain, Hn.
  - unfold Variant2.blessWithTokens, try_catch, bind.
    destruct (asAddress env (body_tokenAddress req)) as [t|]; [|apply wroteNothing_refl].
    destruct (asAddress env (body_recipient req)) as [r|]; [|apply wroteNothing_refl].
    destruct (invalidAmount (body_amount req)); [apply wroteNothing_refl|].
    destruct (Variant2_isTokenDivine_wroteNothing env t w) as [Hn [b Hb]].
    destruct (Variant2.isTokenDivine env t w) as [o wi]. simpl in *. subst o.
    destruct b; simpl; [|exact Hn].
    rewrite getTokenDecimals_returns. unfold lift.
    destruct (parseUnits env _ _); simpl; [|apply wroteNothing_chain, Hn].
    unfold perform. simpl.
    destruct (zephyr_send env _ _); simpl;
      apply (wroteNothing_chain w (with_trace _ wi)), wroteNothing_chain, Hn.
  - unfold Variant2.onOffering, try_catch, bind.
    rewrite getTokenDecimals_returns. unfold lift, clock.
    destruct (formatUnits env _ _); simpl;
      [|apply wroteNothing_chain, wroteNothing_refl].
    unfold perform. simpl.
    destruct (axios_post env _ _) as [[]|]; simpl;
      apply (wroteNothing_post w (with_trace _ w)), wroteNothing_chain, wroteNothing_refl.
Qed.

(** The Offering handler of the second copy keeps no record of what it has
    seen: whenever the amount formats it posts the notification of the
    delivery, first or repeated, and it never throws. *)
Theorem Variant2_onOffering_notifies_each_delivery (env : Env) (ev : Offering)
    (w : World) (formatted : string) :
  formatUnits env (offeredAmount ev) (decimalsOf env w (offeredToken ev))
  = Returned formatted ->
  fst (Variant2.onOffering env ev w) = Returned tt /\
  transactionLog (snd (Variant2.onOffering env ev w)) = transactionLog w /\
  posts (trace (snd (Variant2.onOffering env ev w)))
  = (posts (trace w) ++
     [mkNotification (mortal ev) (offeredToken ev) (pretty (offeredAmount ev))
        formatted (offeringHash ev)
        (Date_toISOString env (trace w ++ [Chain (decimalsCall (offeredToken ev))]))])%list.
Proof.
  intros Hf. unfold Variant2.onOffering, try_catch, bind.
  rewrite getTokenDecimals_returns. unfold lift, clock. rewrite Hf.
  unfold perform. simpl.
  destruct (axios_post env _ _) as [[]|]; simpl;
    (split; [reflexivity|]; split; [reflexivity|]);
    rewrite !posts_app; simpl; rewrite app_nil_r; reflexivity.
Qed.

Lemma Variant2_onOffering_notifies_each_delivery_witness :
  let env := Sample.outside None in
  let w1 := snd (Variant2.onOffering env Sample.offering1 Sample.fresh) in
  fst (Variant2.onOffering env Sample.offering1 w1) = Returned tt /\
  transactionLog (snd (Variant2.onOffering env Sample.offering1 w1)) = [] /\
  posts (trace (snd (Variant2.onOffering env Sample.offering1 w1)))
  = (posts (trace w1) ++
     [mkNotification Sample.mortalB Sample.tokenA "1000000000000000000" "1.0" "0xhash1"
        "2023-11-14T22:13:20.000Z"])%list.
Proof.
  intros env w1.
  apply (Variant2_onOffering_notifies_each_delivery env Sample.offering1 w1 "1.0").
  reflexivity.
Defined.

(** ** The deployment script *)

Section DeployProperties.

Import Deploy.

Local Open Scope list_scope.

Lemma stripPrefix_Some (p l rest : list ascii) :
  stripPrefix p l = Some rest <-> l = p ++ rest.
Proof.
  revert l. induction p as [|a p IH]; intros l; simpl.
  - split; [intros [= ->]; reflexivity|intros ->; reflexivity].
  - destruct l as [|b l]; [split; discriminate|].
    destruct (Ascii.eqb_spec a b) as [->|Hne].
    + rewrite IH. split; [intros ->; reflexivity|intros [= ->]; reflexivity].
    + split; [discriminate|intros [= -> _]; contradiction Hne; reflexivity].
Qed.

Lemma stripPrefix_app (p rest : list ascii) : stripPrefix p (p ++ rest) = Some rest.
Proof. apply stripPrefix_Some. reflexivity. Qed.

(** Whether [l] starts with [p] is decided by the first [length p]
    characters of [l]. *)
Lemma stripPrefix_None_app (p l x x' : list ascii) :
  (length p <= length l)%nat ->
  stripPrefix p (l ++ x) = None ->
  stripPrefix p (l ++ x') = None.
Proof.
  revert l. induction p as [|a p IH]; intros l Hlen; simpl; [discriminate|].
  destruct l as [|b l]; simpl in *; [lia|].
  destruct (Ascii.eqb a b); [|reflexivity].
  apply IH. lia.
Qed.

Lemma search_Some (p l before after : list ascii) :
  search p l = Some (before, after) -> l = before ++ p ++ after.
Proof.
  revert before. induction l as [|c l IH]; intros before; simpl.
  - destruct (stripPrefix p []) as [rest|] eqn:E; [|discriminate].
    intros [= <- <-]. apply stripPrefix_Some in E. exact E.
  - destruct (stripPrefix p (c :: l)) as [rest|] eqn:E.
    + intros [= <- <-]. apply stripPrefix_Some in E. exact E.
    + destruct (search p l) as [[b a]|]; [|discriminate].
      intros [= <- <-]. simpl. f_equal. apply IH. reflexivity.
Qed.

Lemma search_None (p l : list ascii) :
  search p l = None <-> ~ occurs p l.
Proof.
  split.
  - intros Hs (before & after & ->). revert Hs.
    induction before as [|c before IH]; simpl.
    + destruct (p ++ after) as [|c l] eqn:E; simpl.
      * destruct p; [discriminate|discriminate E].
      * rewrite <- E, stripPrefix_app. discriminate.
    + destruct (stripPrefix p (c :: before ++ p ++ after)); [discriminate|].
      destruct (search p (before ++ p ++ after)) as [[b a]|]; [discriminate|].
      intros _. apply IH. reflexivity.
  - intros Hn. destruct (search p l) as [[b a]|] eqn:E; [|reflexivity].
    contradiction Hn. exists b, a. apply search_Some, E.
Qed.

(** The leftmost occurrence stays the leftmost one when the text after it
    changes. *)
Lemma search_stable (p l before after after' : list ascii) :
  search p l = Some (before, after) ->
  search p (before ++ p ++ after') = Some (before, after').
Proof.
  revert before. induction l as [|c l IH]; intros before; simpl.
  - destruct (stripPrefix p []) as [rest|] eqn:E; [|discriminate].
    intros [= <- <-]. simpl.
    destruct (p ++ after') eqn:E'; simpl; rewrite <- E', stripPrefix_app; reflexivity.
  - destruct (stripPrefix p (c :: l)) as [rest|] eqn:E.
    + intros [= <- <-]. simpl.
      destruct (p ++ after') eqn:E'; simpl; rewrite <- E', stripPrefix_app; reflexivity.
    + destruct (search p l) as [[b a]|] eqn:Hs; [|discriminate].
      intros [= <- <-]. simpl.
      pose proof (search_Some p l b a Hs) as ->.
      assert (Hnone : stripPrefix p (c :: b ++ p ++ after') = None).
      { change (c :: b ++ p ++ after') with ((c :: b) ++ p ++ after').
        rewrite app_assoc.
        apply (stripPrefix_None_app p ((c :: b) ++ p) a after').
        - rewrite length_app. simpl. lia.
        - rewrite <- app_assoc. exact E. }
      rewrite Hnone, (IH b eq_refl). reflexivity.
Qed.

Lemma span_app (f : ascii -> bool) (l : list ascii) :
  (fst (span f l) ++ snd (span f l)) = l.
Proof.
  induction l as [|c l IH]; simpl; [reflexivity|].
  destruct (f c); [|reflexivity].
  destruct (span f l) as [a b]. simpl in *. f_equal. exact IH.
Qed.

Lemma span_all (f : ascii -> bool) (l : list ascii) :
  forallb f (fst (span f l)) = true.
Proof.
  induction l as [|c l IH]; simpl; [reflexivity|].
  destruct (f c) eqn:E; [|reflexivity].
  destruct (span f l) as [a b]. simpl in *. rewrite E. exact IH.
Qed.

Lemma span_stopped (f : ascii -> bool) (l : list ascii) :
  stopped f (snd (span f l)).
Proof.
  induction l as [|c l IH]; simpl; [exact I|].
  destruct (f c) eqn:E; [|exact E].
  destruct (span f l) as [a b]. exact IH.
Qed.

Lemma span_exact (f : ascii -> bool) (a rest : list ascii) :
  forallb f a = true -> stopped f rest -> span f (a ++ rest) = (a, rest).
Proof.
  intros Ha Hr. induction a as [|c a IH]; simpl in *.
  - destruct rest as [|c r]; simpl in *; [reflexivity|rewrite Hr; reflexivity].
  - apply andb_true_iff in Ha as [Hc Ha]. rewrite Hc, (IH Ha). reflexivity.
Qed.

Lemma expand_plain (matched before after template : list ascii) :
  "$"%char ∉ template -> expand matched before after template = template.
Proof.
  induction template as [|c t IH]; intros Hno; simpl; [reflexivity|].
  destruct (Ascii.eqb_spec c "$") as [->|_].
  - contradiction Hno. left.
  - f_equal. apply IH. intros Hin. apply Hno. right. exact Hin.
Qed.

Lemma KEY_plain : "$"%char ∉ KEY.
Proof. intros H. apply list_elem_of_In in H. vm_compute in H. intuition discriminate. Qed.

(** The update when the key is there: the text before the leftmost
    [ZEPHYR_CONTRACT_ADDRESS=] and the text from the end of that line on are
    kept, the rest of the line is replaced by the address. *)
Lemma updateEnv_found (envContent address before after : list ascii) :
  "$"%char ∉ address ->
  search KEY envContent = Some (before, after) ->
  updateEnv envContent address
  = before ++ KEY ++ address ++ snd (span inLine after).
Proof.
  intros Hplain Hs. unfold updateEnv. rewrite Hs.
  destruct (span inLine after) as [line rest]. cbn [snd].
  rewrite expand_plain, <- app_assoc; [reflexivity|].
  intros Hin. apply elem_of_app in Hin as [Hin|Hin]; [exact (KEY_plain Hin)|auto].
Qed.

Lemma occurs_search (p l : list ascii) :
  occurs p l -> exists before after, search p l = Some (before, after).
Proof.
  intros Ho. destruct (search p l) as [[b a]|] eqn:E; [exists b, a; reflexivity|].
  apply search_None in E. contradiction.
Qed.

Lemma recorded_updateEnv (envContent address before after : list ascii) :
  "$"%char ∉ address ->
  forallb inLine address = true ->
  search KEY envContent = Some (before, after) ->
  search KEY (updateEnv envContent address)
  = Some (before, address ++ snd (span inLine after)) /\
  span inLine (address ++ snd (span inLine after))
  = (address, snd (span inLine after)).
Proof.
  intros Hplain Hline Hs. rewrite (updateEnv_found _ _ _ _ Hplain Hs). split.
  - apply (search_stable KEY envContent before after). exact Hs.
  - apply span_exact; [exact Hline|apply span_stopped].
Qed.

(** The update records the address when [.env] names the key, and only
    then. For an address without a dollar sign or a line break (as the
    addresses of contracts are): when [ZEPHYR_CONTRACT_ADDRESS=] occurs in
    the text, the updated text records the address; when it does not occur,
    the text is returned unchanged and records no address. *)
Theorem Deploy_updateEnv_records (envContent address : list ascii) :
  "$"%char ∉ address ->
  forallb inLine address = true ->
  (occurs KEY envContent -> recorded (updateEnv envContent address) = Some address) /\
  (~ occurs KEY envContent ->
   updateEnv envContent address = envContent /\
   recorded (updateEnv envContent address) = None).
Proof.
  intros Hplain Hline. split.
  - intros Ho. destruct (occurs_search _ _ Ho) as (before & after & Hs).
    destruct (recorded_updateEnv _ _ _ _ Hplain Hline Hs) as [Hs' Hspan].
    unfold recorded. rewrite Hs', Hspan. reflexivity.
  - intros Hn. apply search_None in Hn.
    assert (E : updateEnv envContent address = envContent)
      by (unfold updateEnv; rewrite Hn; reflexivity).
    split; [exact E|]. rewrite E. unfold recorded. rewrite Hn. reflexivity.
Qed.

(** The update changes one line at most. When the key occurs, the text is
    [before ++ KEY ++ line ++ rest], where the key does not start inside
    [before], [line] runs to the end of its line and [rest] is empty or
    starts with a line break; the update is [before ++ KEY ++ address ++
    rest]: a second line with the key, further down, is left as it is. *)
Theorem Deploy_updateEnv_changes_one_line (envContent address : list ascii) :
  "$"%char ∉ address ->
  occurs KEY envContent ->
  exists before line rest,
    envContent = before ++ KEY ++ line ++ rest /\
    search KEY envContent = Some (before, line ++ rest) /\
    forallb inLine line = true /\
    stopped inLine rest /\
    updateEnv envContent address = before ++ KEY ++ address ++ rest.
Proof.
  intros Hplain Ho. destruct (occurs_search _ _ Ho) as (before & after & Hs).
  exists before, (fst (span inLine after)), (snd (span inLine after)).
  rewrite span_app. split; [apply search_Some, Hs|]. split; [exact Hs|].
  split; [apply span_all|]. split; [apply span_stopped|].
  apply updateEnv_found; assumption.
Qed.

(** The update is idempotent: running it again with the same address
    changes nothing. *)
Theorem Deploy_updateEnv_idempotent (envContent address : list ascii) :
  "$"%char ∉ address ->
  forallb inLine address = true ->
  updateEnv (updateEnv envContent address) address = updateEnv envContent address.
Proof.
  intros Hplain Hline.
  destruct (search KEY envContent) as [[before after]|] eqn:Hs.
  - destruct (recorded_updateEnv _ _ _ _ Hplain Hline Hs) as [Hs' Hspan].
    rewrite (updateEnv_found (updateEnv envContent address) _ _ _ Hplain Hs').
    rewrite Hspan. cbn [snd]. symmetry. apply updateEnv_found; assumption.
  - assert (E : updateEnv envContent address = envContent)
      by (unfold updateEnv; rewrite Hs; reflexivity).
    rewrite !E. reflexivity.
Qed.

(** A run of the script, case by case. The run exits with 0 exactly when
    the two variables are set, the wallet and the compiled contract load,
    the deployment succeeds and [.env] is read and written; [.env] is then
    rewritten with the update of its text, which does not mean that the
    address is recorded: when [.env] does not name the key, the text
    written is the text read. A variable that is missing or empty exits
    with 1 before anything is deployed. And the contract is deployed before
    [.env] is touched: when the deployment has succeeded and [.env] cannot
    be read or cannot be written, the run exits with 1, the contract is
    deployed all the same, and nothing is written. *)
Theorem Deploy_main_exit_code (s : Setup) :
  (exitCode (main s) = 0 <->
   exists hermes address envContent,
     missing (PROVIDER_URL s) = false /\
     missing (WALLET_PRIVATE_KEY s) = false /\
     wallet s = Returned hermes /\
     artifact s = Returned tt /\
     deployment s hermes = Returned address /\
     dotenv s = Returned envContent /\
     writable s = Returned tt) /\
  (forall hermes address envContent,
     exitCode (main s) = 0 ->
     wallet s = Returned hermes ->
     deployment s hermes = Returned address ->
     dotenv s = Returned envContent ->
     main s = mkRun 0 (Some address) (Some (updateEnv envContent address)) /\
     (~ occurs KEY envContent -> written (main s) = Some envContent)) /\
  (missing (PROVIDER_URL s) = true \/ missing (WALLET_PRIVATE_KEY s) = true ->
   main s = mkRun 1 None None) /\
  (forall hermes address,
     missing (PROVIDER_URL s) = false ->
     missing (WALLET_PRIVATE_KEY s) = false ->
     wallet s = Returned hermes ->
     artifact s = Returned tt ->
     deployment s hermes = Returned address ->
     (exists msg, dotenv s = Thrown msg) \/ (exists msg, writable s = Thrown msg) ->
     main s = mkRun 1 (Some address) None) /\
  (exitCode (main s) = 0 \/ main s = mkRun 1 None None \/
   exists address, main s = mkRun 1 (Some address) None).
Proof.
  unfold main. split; [|split; [|split; [|split]]].
  - split.
    + destruct (missing (PROVIDER_URL s)); [discriminate|].
      destruct (missing (WALLET_PRIVATE_KEY s)); [discriminate|]. simpl.
      destruct (wallet s) as [hermes|] eqn:Ew; [|discriminate].
      destruct (artifact s) as [[]|]; [|discriminate].
      destruct (deployment s hermes) as [address|] eqn:Ed; [|discriminate].
      destruct (dotenv s) as [envContent|] eqn:Ee; [|discriminate].
      destruct (writable s) as [[]|]; [|discriminate].
      intros _. exists hermes, address, envContent.
      repeat split; assumption.
    + intros (hermes & address & envContent & -> & -> & -> & -> & -> & -> & ->).
      reflexivity.
  - intros hermes address envContent.
    destruct (missing (PROVIDER_URL s)); [discriminate|].
    destruct (missing (WALLET_PRIVATE_KEY s)); [discriminate|]. simpl.
    destruct (wallet s) as [h|]; [|discriminate].
    destruct (artifact s); [|discriminate].
    intros H0 [= ->] Hd. rewrite Hd in *.
    destruct (dotenv s) as [e|]; [|discriminate].
    destruct (writable s); [|discriminate].
    intros [= ->]. split; [reflexivity|].
    intros Hn. simpl. f_equal. unfold updateEnv.
    apply search_None in Hn. rewrite Hn. reflexivity.
  - intros [-> | ->]; [reflexivity|]. rewrite orb_true_r. reflexivity.
  - intros hermes address -> -> -> -> -> [[msg ->]|[msg ->]]; simpl; [reflexivity|].
    destruct (dotenv s); reflexivity.
  - destruct (missing (PROVIDER_URL s) || missing (WALLET_PRIVATE_KEY s));
      [right; left; reflexivity|].
    destruct (wallet s) as [hermes|]; [|right; left; reflexivity].
    destruct (artifact s); [|right; left; reflexivity].
    destruct (deployment s hermes) as [address|]; [|right; left; reflexivity].
    destruct (dotenv s); [|right; right; exists address; reflexivity].
    destruct (writable s); [left; reflexivity|right; right; exists address; reflexivity].
Qed.

End DeployProperties.

Lemma Deploy_not_occurs_bareEnv : ~ Deploy.occurs Deploy.KEY Deploy.bareEnv.
Proof. apply search_None. vm_compute. reflexivity. Qed.

Lemma Deploy_updateEnv_records_witness :
  Deploy.recorded (Deploy.updateEnv Deploy.sampleEnv Deploy.sampleAddress)
  = Some Deploy.sampleAddress /\
  Deploy.updateEnv Deploy.bareEnv Deploy.sampleAddress = Deploy.bareEnv.
Proof.
  destruct (Deploy_updateEnv_records Deploy.sampleEnv Deploy.sampleAddress) as [H _].
  - apply (bool_decide_eq_true_1 _). vm_compute. reflexivity.
  - vm_compute. reflexivity.
  - destruct (Deploy_updateEnv_records Deploy.bareEnv Deploy.sampleAddress) as [_ H'].
    + apply (bool_decide_eq_true_1 _). vm_compute. reflexivity.
    + vm_compute. reflexivity.
    + split.
      * apply H. exists Deploy.envHead, (list_ascii_of_string "0xold" ++ Deploy.envTail)%list.
        reflexivity.
      * apply H', Deploy_not_occurs_bareEnv.
Defined.

Lemma Deploy_updateEnv_changes_one_line_witness :
  exists before line rest,
    Deploy.sampleEnv = (before ++ Deploy.KEY ++ line ++ rest)%list /\
    Deploy.search Deploy.KEY Deploy.sampleEnv = Some (before, (line ++ rest)%list) /\
    forallb Deploy.inLine line = true /\
    Deploy.stopped Deploy.inLine rest /\
    Deploy.updateEnv Deploy.sampleEnv Deploy.sampleAddress
    = (before ++ Deploy.KEY ++ Deploy.sampleAddress ++ rest)%list.
Proof.
  apply (Deploy_updateEnv_changes_one_line Deploy.sampleEnv Deploy.sampleAddress).
  - apply (bool_decide_eq_true_1 _). vm_compute. reflexivity.
  - exists Deploy.envHead, (list_ascii_of_string "0xold" ++ Deploy.envTail)%list.
    reflexivity.
Defined.

Lemma Deploy_updateEnv_idempotent_witness :
  Deploy.updateEnv (Deploy.updateEnv Deploy.sampleEnv Deploy.sampleAddress)
                   Deploy.sampleAddress
  = Deploy.updateEnv Deploy.sampleEnv Deploy.sampleAddress.
Proof.
  apply (Deploy_updateEnv_idempotent Deploy.sampleEnv Deploy.sampleAddress).
  - apply (bool_decide_eq_true_1 _). vm_compute. reflexivity.
  - vm_compute. reflexivity.
Defined.

Lemma Deploy_main_exit_code_witness :
  Deploy.written (Deploy.main (Deploy.sampleSetup (Returned Deploy.bareEnv)))
  = Some Deploy.bareEnv /\
  Deploy.main (Deploy.sampleSetup (Thrown "ENOENT"))
  = Deploy.mkRun 1 (Some Deploy.sampleAddress) None.
Proof.
  split.
  - apply (proj1 (proj2 (Deploy_main_exit_code
                           (Deploy.sampleSetup (Returned Deploy.bareEnv))))
             "0xaaaaaaaaaaaaaaaaaaaaaaaaaaaaaaaaaaaaaaaa" Deploy.sampleAddress
             Deploy.bareEnv eq_refl eq_refl eq_refl eq_refl).
    apply Deploy_not_occurs_bareEnv.
  - apply (proj1 (proj2 (proj2 (proj2 (Deploy_main_exit_code
                                         (Deploy.sampleSetup (Thrown "ENOENT"))))))
             "0xaaaaaaaaaaaaaaaaaaaaaaaaaaaaaaaaaaaaaaaa" Deploy.sampleAddress
             eq_refl eq_refl eq_refl eq_refl eq_refl).
    left. exists "ENOENT". reflexivity.
Defined.

Example Deploy_sample_update :
  string_of_list_ascii (Deploy.updateEnv Deploy.sampleEnv Deploy.sampleAddress)
  = string_of_list_ascii
      (Deploy.envHead ++ Deploy.KEY ++ Deploy.sampleAddress ++ Deploy.envTail)%list.
Proof. vm_compute. reflexivity. Qed.

(** ** The custody contract *)

Section ZephyrProperties.

Import Zephyr.

Local Open Scope list_scope.

(** Unfolds a function of the contract in [H] and splits on each test it
    makes, closing the cases in which [H] cannot hold. *)
Ltac tx_cases H :=
  cbv beta iota zeta delta
    [exec blessToken unBlessToken appointNewHermes sleepOfZeus awakeningOfZeus
     offerTokens blessWithTokens recoverLostOfferings transferOwnership
     renounceOwnership bind ret revert require gets modify external checkedAdd emit
     setOwner setPaused setProcessed setHermes setDivine onlyOwner whenNotPaused
     whenPaused onlyHermes onlyDivineToken] in H;
  repeat match type of H with
         | context [if ?c then _ else _] =>
             let E := fresh "E" in destruct c eqn:E; cbv beta iota zeta in H;
             try discriminate H
         | context [match ?o with Some _ => _ | None => _ end] =>
             let E := fresh "E" in destruct o eqn:E; cbv beta iota zeta in H;
             try discriminate H
         end.

(** What a transaction that goes through does to the events and to the
    processed identifiers: nothing, or one [Blessing] event, or, for
    [offerTokens], one [Offering] event whose identifier was not processed
    and now is. *)
Lemma exec_events (sender : address) (c : Call) (s s' : State) :
  exec sender c s = Ok tt s' ->
  (processedOfferings s' = processedOfferings s /\
   offeringHashes (events s') = offeringHashes (events s)) \/
  (exists t a h token,
     c = OfferTokens t a h token /\
     valueAt (processedOfferings s) h = false /\
     processedOfferings s' = <[h := true]> (processedOfferings s) /\
     offeringHashes (events s') = offeringHashes (events s) ++ [h]).
Proof.
  intros H. destruct c; tx_cases H; injection H as <-; simpl;
    try (left; split; reflexivity).
  - right. eexists _, _, _, _. split; [reflexivity|].
    split; [apply negb_true_iff; assumption|].
    split; [reflexivity|]. unfold offeringHashes. rewrite omap_app. reflexivity.
  - left. split; [reflexivity|]. unfold offeringHashes. rewrite omap_app. simpl.
    apply app_nil_r.
Qed.


Lemma step_recordedOnce (s : State) (tx : address * Call) :
  recordedOnce s -> recordedOnce (step s tx).
Proof.
  intros [Hnd Hp]. unfold step.
  destruct (exec (fst tx) (snd tx) s) as [[] s'|r] eqn:E; [|split; assumption].
  destruct (exec_events _ _ _ _ E) as [[Hproc Hev]|(t & a & h & token & _ & Hnew & Hproc & Hev)].
  - split; rewrite Hev; [exact Hnd|]. intros h Hin. rewrite Hproc. apply Hp, Hin.
  - split; rewrite Hev.
    + apply NoDup_app. split; [exact Hnd|]. split; [|apply NoDup_singleton].
      intros h' Hin Hin'. apply list_elem_of_singleton in Hin'. subst h'.
      rewrite (Hp h Hin) in Hnew. discriminate Hnew.
    + intros h' Hin. rewrite Hproc. unfold valueAt.
      destruct (decide (h = h')) as [->|Hne].
      * rewrite lookup_insert_eq. reflexivity.
      * rewrite lookup_insert_ne by exact Hne.
        apply elem_of_app in Hin as [Hin|Hin]; [apply Hp, Hin|].
        apply list_elem_of_singleton in Hin. congruence.
Qed.

Lemma run_recordedOnce (txs : list (address * Call)) (s : State) :
  recordedOnce s -> recordedOnce (run txs s).
Proof.
  revert s. induction txs as [|tx txs IH]; intros s H; [exact H|].
  simpl. apply IH, step_recordedOnce, H.
Qed.

Lemma step_processed (s : State) (tx : address * Call) (h : string) :
  valueAt (processedOfferings s) h = true ->
  valueAt (processedOfferings (step s tx)) h = true.
Proof.
  intros Hp. unfold step.
  destruct (exec (fst tx) (snd tx) s) as [[] s'|r] eqn:E; [|exact Hp].
  destruct (exec_events _ _ _ _ E) as [[-> _]|(t & a & h' & token & _ & _ & -> & _)];
    [exact Hp|].
  unfold valueAt. destruct (decide (h' = h)) as [->|Hne].
  - rewrite lookup_insert_eq. reflexivity.
  - rewrite lookup_insert_ne by exact Hne. exact Hp.
Qed.

Lemma run_processed (txs : list (address * Call)) (s : State) (h : string) :
  valueAt (processedOfferings s) h = true ->
  valueAt (processedOfferings (run txs s)) h = true.
Proof.
  revert s. induction txs as [|tx txs IH]; intros s H; [exact H|].
  simpl. apply IH, step_processed, H.
Qed.

(** The contract never announces an identifier twice. After any sequence of
    transactions sent by anyone to a freshly deployed contract, the
    identifiers of the [Offering] events emitted are pairwise distinct; and
    once an identifier is processed it stays so, whatever is sent next, and
    every later [offerTokens] with it reverts. *)
Theorem Zephyr_offering_hashes_distinct (deployer hermes : address)
    (txs : list (address * Call)) :
  NoDup (offeringHashes (events (run txs (deployed deployer hermes)))) /\
  forall s h more sender t a token,
    valueAt (processedOfferings s) h = true ->
    exists r, offerTokens sender t a h token (run more s) = Reverted r.
Proof.
  split.
  - apply run_recordedOnce. split; [constructor|]. intros h Hin. inversion Hin.
  - intros s h more sender t a token Hp.
    pose proof (run_processed more s h Hp) as Hp'.
    destruct (offerTokens sender t a h token (run more s)) as [[] s'|r] eqn:E;
      [|exists r; reflexivity].
    exfalso. tx_cases E.
    match goal with Hn : negb _ = true |- _ => rewrite Hp' in Hn; discriminate Hn end.
Qed.

Lemma Zephyr_offering_hashes_distinct_witness :
  exists r,
    offerTokens 7 5 10 "0xhash1" (mkDeposit (Some 0) (Some true) (Some 10))
      (run [(1, BlessToken 5);
            (7, OfferTokens 5 10 "0xhash1" (mkDeposit (Some 0) (Some true) (Some 10)))]
           (deployed 1 2))
    = Reverted r.
Proof.
  apply (proj2 (Zephyr_offering_hashes_distinct 1 2 [])
           (run [(1, BlessToken 5);
                 (7, OfferTokens 5 10 "0xhash1" (mkDeposit (Some 0) (Some true) (Some 10)))]
                (deployed 1 2))
           "0xhash1" [] 7 5 10 (mkDeposit (Some 0) (Some true) (Some 10))).
  vm_compute. reflexivity.
Defined.

(** [offerTokens] goes through exactly when the contract is not paused, the
    token is on the allow-list, the amount is positive, the identifier is
    new, the token answers the three calls, [transferFrom] returns [true]
    and the balance of the contract has grown by the amount at least
    (without overflow of the sum); it then marks the identifier and emits
    one [Offering] event with the sender, the token, the amount and the
    identifier, and changes nothing else. *)
Theorem Zephyr_offerTokens_accepts (sender t : address) (a : Z) (h : string)
    (token : Deposit) (s s' : State) :
  offerTokens sender t a h token s = Ok tt s' <->
  paused s = false /\
  isTokenDivine t s = true /\
  0 < a /\
  valueAt (processedOfferings s) h = false /\
  exists b b',
    balanceBefore token = Some b /\
    transferFromResult token = Some true /\
    balanceAfter token = Some b' /\
    b + a <= MAX_UINT256 /\
    b + a <= b' /\
    s' = mkState (owner s) (paused s) (<[h := true]> (processedOfferings s))
                 (hermesAddress s) (divineTokens s)
                 (events s ++ [OfferingEvent sender t a h]).
Proof.
  split.
  - intros H. tx_cases H. injection H as <-.
    repeat match goal with
           | E : negb _ = true |- _ => apply negb_true_iff in E
           | E : (_ <? _) = true |- _ => apply Z.ltb_lt in E
           | E : (_ <=? _) = true |- _ => apply Z.leb_le in E
           end.
    do 4 (split; [first [assumption|reflexivity]|]). eexists _, _.
    do 5 (split; [first [assumption|reflexivity]|]). f_equal; assumption.
  - intros (Hp & Hd & Ha & Hn & b & b' & Hb & Ht & Hb' & Hmax & Hgrow & ->).
    unfold isTokenDivine in Hd.
    apply Z.ltb_lt in Ha. apply Z.leb_le in Hmax. apply Z.leb_le in Hgrow.
    cbv beta iota zeta delta
      [offerTokens bind ret revert require gets modify external checkedAdd emit
       setProcessed whenNotPaused onlyDivineToken].
    rewrite Hp, Hd, Ha, Hn, Hb, Ht, Hb'. cbv beta iota zeta delta [negb].
    rewrite Hmax. cbv beta iota zeta. rewrite Hgrow. simpl. rewrite ?Hp. reflexivity.
Qed.

(** [blessWithTokens] goes through exactly when the sender is Hermes, the
    contract is not paused, the token is on the allow-list, the recipient is
    not the zero address, the amount is positive and within the balance of
    the contract, and [transfer] returns [true]; it then emits one
    [Blessing] event and changes nothing else. *)
Theorem Zephyr_blessWithTokens_accepts (sender t mortal : address) (a : Z)
    (referenceId : string) (token : Withdrawal) (s s' : State) :
  blessWithTokens sender t mortal a referenceId token s = Ok tt s' <->
  sender = hermesAddress s /\
  paused s = false /\
  isTokenDivine t s = true /\
  mortal <> 0 /\
  0 < a /\
  exists held,
    balance token = Some held /\
    a <= held /\
    transferResult token = Some true /\
    s' = mkState (owner s) (paused s) (processedOfferings s) (hermesAddress s)
                 (divineTokens s)
                 (events s ++ [BlessingEvent mortal t a referenceId]).
Proof.
  split.
  - intros H. tx_cases H. injection H as <-.
    repeat match goal with
           | E : negb _ = true |- _ => apply negb_true_iff in E
           | E : (_ =? _) = true |- _ => apply Z.eqb_eq in E
           | E : (_ =? _) = false |- _ => apply Z.eqb_neq in E
           | E : (_ <? _) = true |- _ => apply Z.ltb_lt in E
           | E : (_ <=? _) = true |- _ => apply Z.leb_le in E
           end.
    do 5 (split; [first [assumption|reflexivity]|]). eexists.
    do 3 (split; [first [assumption|reflexivity]|]). f_equal; assumption.
  - intros (Hs & Hp & Hd & Hm & Ha & held & Hb & Hle & Ht & ->).
    unfold isTokenDivine in Hd.
    apply Z.eqb_eq in Hs. apply Z.eqb_neq in Hm.
    apply Z.ltb_lt in Ha. apply Z.leb_le in Hle.
    cbv beta iota zeta delta
      [blessWithTokens bind ret revert require gets modify external emit
       onlyHermes whenNotPaused onlyDivineToken].
    rewrite Hs, Hp, Hd, Hm, Ha, Hb. cbv beta iota zeta delta [negb].
    rewrite Hle, Ht. simpl. rewrite ?Hp. reflexivity.
Qed.

(** Only the owner administers. A transaction sent by anyone else leaves
    the owner, the pause flag, the address of Hermes and the allow-list as
    they were. *)
Theorem Zephyr_only_owner_administers (sender : address) (c : Call) (s : State) :
  sender <> owner s ->
  owner (step s (sender, c)) = owner s /\
  paused (step s (sender, c)) = paused s /\
  hermesAddress (step s (sender, c)) = hermesAddress s /\
  divineTokens (step s (sender, c)) = divineTokens s.
Proof.
  intros Hne. apply Z.eqb_neq in Hne. unfold step. simpl.
  destruct (exec sender c s) as [[] s'|r] eqn:E; [|repeat split].
  destruct c; tx_cases E; try congruence; injection E as <-; repeat split;
    simpl; assumption.
Qed.

Lemma Zephyr_only_owner_administers_witness :
  divineTokens (step (deployed 1 2) (7, BlessToken 5)) = ∅.
Proof.
  apply (Zephyr_only_owner_administers 7 (BlessToken 5) (deployed 1 2)). discriminate.
Defined.

(** While the contract is paused no offering is accepted and no blessing is
    given: whatever the transaction and its sender, the events and the
    processed identifiers stay as they were. *)
Theorem Zephyr_paused_moves_nothing (tx : address * Call) (s : State) :
  paused s = true ->
  events (step s tx) = events s /\
  processedOfferings (step s tx) = processedOfferings s.
Proof.
  intros Hp. unfold step.
  destruct (exec (fst tx) (snd tx) s) as [[] s'|r] eqn:E; [|split; reflexivity].
  destruct (snd tx); tx_cases E; try congruence; injection E as <-; split; reflexivity.
Qed.

Lemma Zephyr_paused_moves_nothing_witness :
  let s := run [(1, BlessToken 5); (1, SleepOfZeus)] (deployed 1 2) in
  events (step s (7, OfferTokens 5 10 "0xhash1" (mkDeposit (Some 0) (Some true) (Some 10))))
  = [].
Proof.
  intros s.
  apply (Zephyr_paused_moves_nothing
           (7, OfferTokens 5 10 "0xhash1" (mkDeposit (Some 0) (Some true) (Some 10))) s).
  reflexivity.
Defined.

(** The allow-list, written and read back. [blessToken] by the owner, for a
    token that is not the zero address, makes [isTokenDivine] true for the
    token; [unBlessToken] by the owner makes it false; neither changes the
    verdict of another token. [blessToken] of the zero address reverts. *)
Theorem Zephyr_allow_list_round_trip (t : address) (s : State) :
  t <> 0 ->
  let s1 := step s (owner s, BlessToken t) in
  let s2 := step s1 (owner s, UnBlessToken t) in
  isTokenDivine t s1 = true /\
  isTokenDivine t s2 = false /\
  (forall t', t' <> t ->
     isTokenDivine t' s1 = isTokenDivine t' s /\
     isTokenDivine t' s2 = isTokenDivine t' s) /\
  step s (owner s, BlessToken 0) = s.
Proof.
  intros Hne. apply Z.eqb_neq in Hne.
  cbv beta iota zeta delta
    [step exec blessToken unBlessToken bind ret revert require modify setDivine
     onlyOwner fst snd isTokenDivine valueAt owner divineTokens].
  destruct s as [o p pr he d ev]. rewrite Z.eqb_refl, Hne.
  cbv beta iota zeta delta [negb]. rewrite ?Z.eqb_refl. cbv beta iota zeta.
  rewrite lookup_insert_eq, lookup_insert_eq.
  split; [reflexivity|]. split; [reflexivity|]. split; [|reflexivity].
  intros t' Hne'. rewrite !lookup_insert_ne by congruence. split; reflexivity.
Qed.

Lemma Zephyr_allow_list_round_trip_witness :
  isTokenDivine 5 (step (deployed 1 2) (1, BlessToken 5)) = true /\
  isTokenDivine 5 (step (step (deployed 1 2) (1, BlessToken 5)) (1, UnBlessToken 5))
  = false.
Proof.
  destruct (Zephyr_allow_list_round_trip 5 (deployed 1 2)) as (H1 & H2 & _).
  - discriminate.
  - split; [exact H1|exact H2].
Defined.

Lemma Zephyr_offerTokens_accepts_witness :
  let s := step (deployed 1 2) (1, BlessToken 5) in
  offerTokens 7 5 10 "0xhash1" (mkDeposit (Some 0) (Some true) (Some 10)) s
  = Ok tt (mkState 1 false {[ "0xhash1" := true ]} 2 {[ 5 := true ]}
             [OfferingEvent 7 5 10 "0xhash1"]).
Proof.
  intros s.
  apply (proj2 (Zephyr_offerTokens_accepts 7 5 10 "0xhash1"
                  (mkDeposit (Some 0) (Some true) (Some 10)) s _)).
  split; [reflexivity|]. split; [reflexivity|]. split; [lia|]. split; [reflexivity|].
  exists 0, 10. split; [reflexivity|]. split; [reflexivity|]. split; [reflexivity|].
  split; [vm_compute; discriminate|]. split; [lia|]. reflexivity.
Defined.

Lemma Zephyr_blessWithTokens_accepts_witness :
  let s := step (deployed 1 2) (1, BlessToken 5) in
  blessWithTokens 2 5 9 10 "divine123" (mkWithdrawal (Some 10) (Some true)) s
  = Ok tt (mkState 1 false ∅ 2 {[ 5 := true ]} [BlessingEvent 9 5 10 "divine123"]).
Proof.
  intros s.
  apply (proj2 (Zephyr_blessWithTokens_accepts 2 5 9 10 "divine123"
                  (mkWithdrawal (Some 10) (Some true)) s _)).
  split; [reflexivity|]. split; [reflexivity|]. split; [reflexivity|].
  split; [discriminate|]. split; [lia|].
  exists 10. split; [reflexivity|]. split; [lia|]. split; reflexivity.
Defined.

End ZephyrProperties.
